(** * The inlang SDK project loader ([loadProject]): settings validation,
    message-file synchronisation and plugin import reconciliation.

    The development embeds the functions of [loadProject.ts] as Rocq
    functions.  Promises are run to completion in program order; a thrown
    JavaScript value is an [Exception] carried by [Throw].  Collaborators
    that live in other packages (the TypeBox validator, the settings
    migration, the message codec, the id hash, [JSON.parse],
    [localeCompare]) are section variables: every theorem of the section
    holds for all of them, and the module [Demo] gives stand-ins for the
    runs that are evaluated at the end. *)

From stdpp Require Import base gmap strings list fin_maps pretty.
From Stdlib Require Import ZArith Lia Permutation.

Open Scope string_scope.
Open Scope list_scope.

#[local] Set Warnings "-register-all,-clear-no-such-hyp".

(** ** JavaScript values *)

(** Values produced by [JSON.parse], or handed to [setSettings] by a caller.
    [option Json] adds [undefined] as [None].  Numbers are kept integral:
    nothing in the loader computes with them. *)
Inductive Json : Type :=
| JNull
| JBool (b : bool)
| JNumber (n : Z)
| JString (s : string)
| JArray (items : list Json)
| JObject (fields : list (string * Json)).

(** One entry of the validator's error iterator.  The [type] and [schema]
    members are constants of the validator and are left out. *)
Record ValueError := mkValueError {
  ve_message : string;
  ve_value : option Json;
  ve_path : string
}.

(** Values that the loader throws, or that its collaborators throw at it. *)
Inductive Exception : Type :=
| TypeError
| Error (message : string)
| FsError (code : string)
| ProjectSettingsFileNotFoundError (cause : Exception) (path : string)
| ProjectSettingsFileJSONSyntaxError (path : string)
| ProjectSettingsInvalidError (errors : list ValueError)
| PluginLoadMessagesError (cause : Exception)
| LoadProjectInvalidArgument (argument : string).

Inductive Result (A : Type) : Type :=
| Ok (a : A)
| Throw (e : Exception).
Arguments Ok {A} a.
Arguments Throw {A} e.

Definition isOk {A} (r : Result A) : bool :=
  match r with Ok _ => true | Throw _ => false end.

(** [String(v)] for template literals and [Array.prototype.join]. *)
Fixpoint toString (v : Json) : string :=
  match v with
  | JNull => "null"
  | JBool true => "true"
  | JBool false => "false"
  | JNumber n => pretty n
  | JString s => s
  | JArray items =>
      String.concat ","
        (List.map (fun x => match x with JNull => EmptyString | _ => toString x end) items)
  | JObject _ => "[object Object]"
  end.

Definition toStringJs (v : option Json) : string :=
  match v with
  | None => "undefined"
  | Some j => toString j
  end.

(** [items.join(sep)]: [null] entries print as the empty string. *)
Definition arrayJoin (sep : string) (items : list Json) : string :=
  String.concat sep
    (List.map (fun x => match x with JNull => EmptyString | _ => toString x end) items).

(** Own-property lookup; the last binding of a key wins, as in [JSON.parse]. *)
Fixpoint lookupField (key : string) (fields : list (string * Json)) : option Json :=
  match fields with
  | [] => None
  | (k, v) :: rest =>
      match lookupField key rest with
      | Some w => Some w
      | None => if String.eqb k key then Some v else None
      end
  end.

(** [v[key]] for a key that no prototype defines: only objects answer. *)
Definition getProperty (key : string) (v : Json) : option Json :=
  match v with
  | JObject fields => lookupField key fields
  | _ => None
  end.

(** SameValueZero, the comparison of [Array.prototype.includes].  Arrays and
    objects are compared by identity, and two parsed values never share one. *)
Definition sameValueZero (a b : option Json) : bool :=
  match a, b with
  | None, None => true
  | Some JNull, Some JNull => true
  | Some (JBool x), Some (JBool y) => Bool.eqb x y
  | Some (JNumber x), Some (JNumber y) => Z.eqb x y
  | Some (JString x), Some (JString y) => String.eqb x y
  | _, _ => false
  end.

Fixpoint isSubstring (needle hay : string) : bool :=
  String.prefix needle hay ||
  match hay with
  | EmptyString => false
  | String _ rest => isSubstring needle rest
  end.

(** [languageTags.includes(sourceLanguageTag)].  Arrays and strings have the
    method; on anything else the call is a [TypeError]. *)
Definition includes (languageTags sourceLanguageTag : option Json) : Result bool :=
  match languageTags with
  | Some (JArray items) =>
      Ok (existsb (fun x => sameValueZero (Some x) sourceLanguageTag) items)
  | Some (JString s) => Ok (isSubstring (toStringJs sourceLanguageTag) s)
  | _ => Throw TypeError
  end.

(** [languageTags.join('", "')]: only arrays have [join]. *)
Definition dquote : string := String (Ascii.ascii_of_nat 34) EmptyString.

Definition joinTags (languageTags : option Json) : Result string :=
  match languageTags with
  | Some (JArray items) => Ok (arrayJoin (dquote +:+ ", " +:+ dquote) items)
  | _ => Throw TypeError
  end.

(** ** The file system seen through [nodeishFs] *)

Inductive FsNode : Type :=
| FsFile (content : string)
| FsDir
| FsFault (code : string).

(** A path is bound to a file, to a directory, or to a node whose every
    access fails with the given code (a permission or device error).  An
    unbound path does not exist. *)
Abbreviation Fs := (gmap string FsNode).

Definition ENOENT : string := "ENOENT".

Definition readFile (fs : Fs) (path : string) : Result string :=
  match fs !! path with
  | Some (FsFile content) => Ok content
  | Some FsDir => Throw (FsError "EISDIR")
  | Some (FsFault code) => Throw (FsError code)
  | None => Throw (FsError ENOENT)
  end.

Definition stat (fs : Fs) (path : string) : Result unit :=
  match fs !! path with
  | Some (FsFile _) | Some FsDir => Ok tt
  | Some (FsFault code) => Throw (FsError code)
  | None => Throw (FsError ENOENT)
  end.

(** [rm] returns a promise: the new file system together with the promise's
    settlement.  A plain [rm] removes files only. *)
Definition rm (fs : Fs) (path : string) : Fs * Result unit :=
  match fs !! path with
  | Some (FsFile _) => (delete path fs, Ok tt)
  | Some FsDir => (fs, Throw (FsError "EISDIR"))
  | Some (FsFault code) => (fs, Throw (FsError code))
  | None => (fs, Throw (FsError ENOENT))
  end.

(** [(e as any).code] *)
Definition errorCode (e : Exception) : option string :=
  match e with
  | FsError code => Some code
  | _ => None
  end.

(** A string that JavaScript treats as true: defined and not empty. *)
Definition truthy (s : option string) : option string :=
  match s with
  | Some EmptyString => None
  | other => other
  end.

(** ** Messages and the message store *)

Record Variant := mkVariant {
  languageTag : string;
  pattern : string
}.

Record Message := mkMessage {
  id : string;
  alias : gmap string string;
  variants : list Variant
}.

Abbreviation Store := (gmap string Message).

(** Modelled from the spec: the Message Store built by [createMessagesQuery]
    (createMessagesQuery.ts is not among the sources).  It is the in-memory
    mapping of message id to message with [get], [getAll], [upsert],
    [create], [delete] and [includedMessageIds]; [update], which the import
    calls, replaces the value of an id that is present.  Each mutating
    operation reports whether it changed the mapping: [create] leaves an id
    that is already present alone, [update] and [delete] leave an absent one
    alone, [upsert] always writes.  A store mutation is an operation that
    reports a change. *)
Module messagesQuery.

Definition get (where_id : string) (store : Store) : option Message :=
  store !! where_id.

Definition getAll (store : Store) : list Message :=
  (map_to_list store).*2.

Definition includedMessageIds (store : Store) : list string :=
  (map_to_list store).*1.

Definition create (data : Message) (store : Store) : bool * Store :=
  match store !! id data with
  | Some _ => (false, store)
  | None => (true, <[id data := data]> store)
  end.

Definition update (where_id : string) (data : Message) (store : Store) : bool * Store :=
  match store !! where_id with
  | Some _ => (true, <[where_id := data]> store)
  | None => (false, store)
  end.

Definition upsert (where_id : string) (data : Message) (store : Store) : bool * Store :=
  (true, <[where_id := data]> store).

Definition delete (where_id : string) (store : Store) : bool * Store :=
  match store !! where_id with
  | Some _ => (true, base.delete where_id store)
  | None => (false, store)
  end.

End messagesQuery.

(** [createMessagesQuery(() => messages() || [])]: the store indexed from
    the loaded messages, a later message replacing an earlier one of the
    same id. *)
Definition createMessagesQuery (messages : option (list Message)) : Store :=
  foldl (fun store m => <[id m := m]> store) ∅ (default [] messages).

(** Every message is filed under its own id. *)
Definition storeKeyedById (store : Store) : Prop :=
  map_Forall (fun k m => id m = k) store.

(** [projectPath + "/messages" + "/v1"] *)
Definition messageFolderPath (projectPath : string) : string :=
  projectPath +:+ "/messages" +:+ "/v1".

(** The alias object the import builds: [alias[loadPluginId]] and
    [alias["library.inlang.paraglideJs"]], both set to the imported id. *)
Definition importAlias (loadPluginId importedId : string) : gmap string string :=
  <["library.inlang.paraglideJs" := importedId]> (<[loadPluginId := importedId]> ∅).

(** Of the resolved modules the loader reads the [errors], and the id and
    the [loadMessages] result of the plugin that imports messages, when
    there is one. *)
Record ResolvedModules := mkResolvedModules {
  moduleErrors : list Exception;
  loadMessagesPlugin : option (string * list Message)
}.

(** ** Collaborators for concrete runs *)

(** Stand-ins for the collaborators, used where a run is evaluated: a codec
    that writes a message on one line and reads it back whatever blanks
    come first, ids and paths that differ by the [.json] suffix, a hash that
    spells out its arguments, a validator for the two tag fields, and a
    migration that moves the entries of a [settings] object to the root. *)
Module Demo.

Definition projectPath : string := "/proj.inlang".
Definition pluginId : string := "plugin.x".

Definition getPathFromMessageId (messageId : string) : string :=
  messageId +:+ ".json".

Definition getMessageIdFromPath (path : string) : option string :=
  let file := if String.prefix "/" path then String.substring 1 (String.length path) path
              else path in
  let n := String.length file in
  if (5 <=? n)%nat && String.eqb (String.substring (n - 5) 5 file) ".json"
  then Some (String.substring 0 (n - 5) file)
  else None.

Definition humanIdHash (value : string) (offset : nat) : string :=
  "id_" +:+ value +:+ "_" +:+ pretty offset.

Definition localeCompare (a b : string) : Z :=
  match String.compare a b with
  | Lt => (-1)%Z
  | Eq => 0%Z
  | Gt => 1%Z
  end.

Definition encodeAlias (a : gmap string string) : string :=
  String.concat ","
    (List.map (fun entry : string * string => entry.1 +:+ "=" +:+ entry.2) (map_to_list a)).

Definition encodeVariants (vs : list Variant) : string :=
  String.concat ","
    (List.map (fun v => languageTag v +:+ "=" +:+ pattern v) vs).

Definition encodeMessage (m : Message) : string :=
  id m +:+ ";" +:+ encodeAlias (alias m) +:+ ";" +:+ encodeVariants (variants m).

Fixpoint skipBlanks (s : string) : string :=
  match s with
  | String c rest => if Ascii.eqb c (Ascii.ascii_of_nat 32) then skipBlanks rest else s
  | EmptyString => s
  end.

Definition hello : Message :=
  mkMessage "hello" ∅ [mkVariant "en" "Hi"].
Definition helloBefore : Message :=
  mkMessage "hello" ∅ [mkVariant "en" "Hello"].
Definition greeting : Message :=
  mkMessage "greeting" ∅ [mkVariant "en" "Welcome"].
Definition bye : Message :=
  mkMessage "bye" ∅ [mkVariant "en" "Bye"].

(** The decoder knows the messages of the runs below. *)
Definition parseMessage (path content : string) : option Message :=
  List.find (fun m => String.eqb (encodeMessage m) (skipBlanks content))
    [hello; helloBefore; greeting; bye].

Definition field (key : string) (v : Json) : list (string * Json) :=
  match getProperty key v with
  | Some x => [(key, x)]
  | None => []
  end.

(** [object[key] = v] *)
Fixpoint setField (key : string) (v : Json) (fields : list (string * Json))
    : list (string * Json) :=
  match fields with
  | [] => [(key, v)]
  | (k, w) :: rest =>
      if String.eqb k key then (k, v) :: rest else (k, w) :: setField key v rest
  end.

Definition migrateIfOutdated (config : Json) : Json :=
  match getProperty "settings" config with
  | Some (JObject moved) =>
      JObject
        (foldl (fun fields entry => setField entry.1 entry.2 fields)
           (("$schema", JString "https://inlang.com/schema/project-settings")
            :: field "sourceLanguageTag" config ++ field "languageTags" config
            ++ field "modules" config)
           moved)
  | _ => config
  end.

Definition isString (v : Json) : bool :=
  match v with JString _ => true | _ => false end.

Definition Check (v : Json) : bool :=
  match getProperty "sourceLanguageTag" v, getProperty "languageTags" v,
        getProperty "settings" v with
  | Some (JString _), Some (JArray tags), None => forallb isString tags
  | _, _, _ => false
  end.

Definition Errors (v : Json) : list ValueError :=
  if Check v then [] else [mkValueError "Invalid project settings" (Some v) EmptyString].

Definition outdatedSettings : Json :=
  JObject [("sourceLanguageTag", JString "en");
           ("languageTags", JArray [JString "en"]);
           ("modules", JArray []);
           ("settings", JObject [("sourceLanguageTag", JString "fr")])].

Definition currentSettings : Json :=
  JObject [("sourceLanguageTag", JString "en");
           ("languageTags", JArray [JString "en"; JString "de"]);
           ("modules", JArray [])].

Definition outdatedSettingsText : string := "outdated settings".
Definition currentSettingsText : string := "current settings".

(** The parser knows the two settings texts. *)
Definition JSON_parse (text : string) : option Json :=
  if String.eqb text outdatedSettingsText then Some outdatedSettings
  else if String.eqb text currentSettingsText then Some currentSettings
  else None.

Definition isAbsolutePath (path : string) : bool :=
  String.prefix "/" path.

Definition resolveModules (value : Json) : Result ResolvedModules :=
  Ok (mkResolvedModules [] None).

(** The settings that [migrateIfOutdated] makes of
    [outdatedSettings]: the source tag [fr] has come up from the
    [settings] object. *)
Definition migratedSettings : Json :=
  JObject [("$schema", JString "https://inlang.com/schema/project-settings");
           ("sourceLanguageTag", JString "fr");
           ("languageTags", JArray [JString "en"]);
           ("modules", JArray [])].

(** A stored message that the plugin knows as [greeting] and another
    module knows as [salute]. *)
Definition storedGreeting : Message :=
  mkMessage "calm_owl" {[ pluginId := "greeting"; "plugin.y" := "salute" ]}
    [mkVariant "en" "Welcome"].


Definition helloFile : string := messageFolderPath projectPath +:+ "/" +:+ "hello.json".

(** A project with its settings, the file of [hello], and a message file
    that does not decode. *)
Definition brokenProject : Fs :=
  {[ projectPath +:+ "/settings.json" := FsFile currentSettingsText;
     messageFolderPath projectPath +:+ "/broken.json" := FsFile "{";
     messageFolderPath projectPath +:+ "/hello.json"
       := FsFile (encodeMessage hello) ]}.

End Demo.

(** ** The loader *)

Section Loader.

#[local] Set Default Proof Using "Type".

(** [migrateIfOutdated] of [@inlang/project-settings/migration]. *)
Variable migrateIfOutdated : Json -> Json.
(** [settingsCompiler.Check] and [settingsCompiler.Errors] for the
    [ProjectSettings] schema. *)
Variable Check : Json -> bool.
Variable Errors : Json -> list ValueError.
(** [JSON.parse]; [None] is a thrown [SyntaxError]. *)
Variable JSON_parse : string -> option Json.

Definition notIncludedMessage (sourceLanguageTag : option Json) (joined : string) : string :=
  "The sourceLanguageTag " +:+ dquote +:+ toStringJs sourceLanguageTag +:+ dquote
  +:+ " is not included in the languageTags " +:+ dquote +:+ joined +:+ dquote
  +:+ ". Please add it to the languageTags.".

(** The second half of [parseSettings]: the destructuring of [settings]
    (not of [withMigration]) and the membership test. *)
Definition checkSourceLanguageTag (settings withMigration : Json) : Result Json :=
  match settings with
  | JNull => Throw TypeError
  | _ =>
    let sourceLanguageTag := getProperty "sourceLanguageTag" settings in
    let languageTags := getProperty "languageTags" settings in
    match includes languageTags sourceLanguageTag with
    | Throw e => Throw e
    | Ok true => Ok withMigration
    | Ok false =>
      match joinTags languageTags with
      | Throw e => Throw e
      | Ok joined =>
        Throw (ProjectSettingsInvalidError
                 [ mkValueError (notIncludedMessage sourceLanguageTag joined)
                                sourceLanguageTag "sourceLanguageTag" ])
      end
    end
  end.

Definition parseSettings (settings : Json) : Result Json :=
  let withMigration := migrateIfOutdated settings in
  if negb (Check withMigration) then
    let typeErrors := Errors settings in
    if (0 <? length typeErrors)%nat then
      Throw (ProjectSettingsInvalidError typeErrors)
    else checkSourceLanguageTag settings withMigration
  else checkSourceLanguageTag settings withMigration.

Definition loadSettings (fs : Fs) (settingsFilePath : string) : Result Json :=
  match readFile fs settingsFilePath with
  | Throw settingsFileError =>
      Throw (ProjectSettingsFileNotFoundError settingsFileError settingsFilePath)
  | Ok settingsFile =>
      match JSON_parse settingsFile with
      | None => Throw (ProjectSettingsFileJSONSyntaxError settingsFilePath)
      | Some json => parseSettings json
      end
  end.

(** The [settings] signal, the [initial] flag captured by [skipFirst], and
    the values handed to [_writeSettingsToDisk], oldest first. *)
Record SettingsState := mkSettingsState {
  settings : option Json;
  initial : bool;
  settingsWrites : list Json
}.

Definition emptySettings : SettingsState := mkSettingsState None false [].

(** What a call of [setSettings] gives back: [{ data }], [{ error }], or
    a thrown value. *)
Inductive SetSettingsResult : Type :=
| ResultData
| ResultError (error : Exception)
| ResultThrown (e : Exception).

Definition unhandledSetSettings : Exception :=
  Error "Unhandled error in setSettings. This is an internal bug. Please file an issue.".

Definition setSettings (st : SettingsState) (value : Json)
  : SetSettingsResult * SettingsState :=
  match parseSettings value with
  | Ok validatedSettings =>
      (ResultData,
       mkSettingsState (Some validatedSettings) true
         (if initial st then settingsWrites st ++ [validatedSettings]
          else settingsWrites st))
  | Throw (ProjectSettingsInvalidError errors) =>
      (ResultError (ProjectSettingsInvalidError errors), st)
  | Throw _ => (ResultThrown unhandledSetSettings, st)
  end.

(** The outcome of the [initialized] awaitable. *)
Inductive InitState : Type :=
| InitPending
| InitComplete
| InitFailed (e : Exception).

(** The settings effect: [loadSettings(..).then(setSettings).catch(markInitAsFailed)].
    An [{ error }] returned by [setSettings] is dropped by the [then]
    callback; a value thrown inside it reaches the [catch]. *)
Definition settingsEffect (fs : Fs) (projectPath : string) (st : SettingsState)
  : InitState * SettingsState :=
  match loadSettings fs (projectPath +:+ "/settings.json") with
  | Throw err => (InitFailed err, st)
  | Ok loaded =>
      match setSettings st loaded with
      | (ResultThrown err, st') => (InitFailed err, st')
      | (_, st') => (InitPending, st')
      end
  end.

(** [await initialized.catch((error) => error)]: [None] while the awaitable
    never settles. *)
Definition initializeError (i : InitState) : option (option Exception) :=
  match i with
  | InitPending => None
  | InitComplete => Some None
  | InitFailed e => Some (Some e)
  end.

(** The [errors] subscribable of the returned project. *)
Definition projectErrors (initError : option Exception)
    (resolvedModulesErrors : option (list Exception)) : list Exception :=
  (match initError with Some e => [e] | None => [] end)
  ++ (match resolvedModulesErrors with Some es => es | None => [] end).


(** ** Message files *)

(** The codec of [storage/helper.js].  [parseMessage] throws on content it
    cannot decode ([None]); [encodeMessage] is applied to [undefined] by the
    watcher when the store has no message, and [encodeUndefined] is what it
    does then ([None]: it throws). *)
Variable parseMessage : string -> string -> option Message.
Variable encodeMessage : Message -> string.
Variable encodeUndefined : option string.
Variable getMessageIdFromPath : string -> option string.
Variable getPathFromMessageId : string -> string.

Definition encodeMessageJs (message : option Message) : option string :=
  match message with
  | Some m => Some (encodeMessage m)
  | None => encodeUndefined
  end.

(** The signals of the messages effect and the [initialized] awaitable. *)
Record LoadState := mkLoadState {
  messages : option (list Message);
  messageParseErrors : gmap string Exception;
  initialized : InitState
}.

Definition emptyLoadState : LoadState := mkLoadState None ∅ InitPending.

(** A promise settles once. *)
Definition settle (current next : InitState) : InitState :=
  match current with
  | InitPending => next
  | _ => current
  end.

(** The body of the loop over [messageFilePaths]: the file is skipped when
    no id derives from its path, and when reading or parsing it throws (the
    [catch] block is empty). *)
Definition loadMessageFile (fs : Fs) (projectPath : string)
    (loadedMessages : list Message) (messageFilePath : string) : list Message :=
  match truthy (getMessageIdFromPath messageFilePath) with
  | None => loadedMessages
  | Some _ =>
      match readFile fs (messageFolderPath projectPath +:+ messageFilePath) with
      | Throw _ => loadedMessages
      | Ok messageRaw =>
          match parseMessage messageFilePath messageRaw with
          | None => loadedMessages
          | Some message => loadedMessages ++ [message]
          end
      end
  end.

(** [loadAndSetMessages].  [walk] is what [mkdir] followed by
    [readFilesFromFolderRecursive] gives: the paths below the message
    folder, or the value thrown on the way. *)
Definition loadAndSetMessages (fs : Fs) (projectPath : string)
    (walk : Result (list string)) (st : LoadState) : LoadState :=
  match walk with
  | Throw err =>
      mkLoadState (messages st) (messageParseErrors st)
        (settle (initialized st) (InitFailed (PluginLoadMessagesError err)))
  | Ok messageFilePaths =>
      mkLoadState (Some (foldl (loadMessageFile fs projectPath) [] messageFilePaths))
        (messageParseErrors st)
        (settle (initialized st) InitComplete)
  end.

(** ** The watcher loop *)

Inductive WatchOutcome : Type :=
| WatchFatal (e : Exception)
| WatchIgnored
| WatchDeleted (changed : bool)
| WatchSkipped
| WatchUpserted
| WatchSwallowed.

(** The [readFile] of the watcher: [ENOENT] leaves [fileContent] undefined,
    any other error is thrown again. *)
Definition readFileContent (fs : Fs) (path : string) : Result (option string) :=
  match readFile fs path with
  | Ok content => Ok (Some content)
  | Throw e =>
      match errorCode e with
      | Some code => if String.eqb code ENOENT then Ok None else Throw e
      | None => Throw e
      end
  end.

(** One turn of [for await (const event of watcher)]. *)
Definition handleWatchEvent (fs : Fs) (projectPath : string)
    (filename : option string) (store : Store) : WatchOutcome * Store :=
  match truthy filename with
  | None => (WatchFatal (Error "filename not set in event..."), store)
  | Some name =>
      match truthy (getMessageIdFromPath name) with
      | None => (WatchIgnored, store)
      | Some messageId =>
          match readFileContent fs (messageFolderPath projectPath +:+ "/" +:+ name) with
          | Throw e => (WatchFatal e, store)
          | Ok fileContent =>
              match truthy fileContent with
              | None =>
                  let '(changed, store') := messagesQuery.delete messageId store in
                  (WatchDeleted changed, store')
              | Some content =>
                  match parseMessage name content with
                  | None => (WatchSwallowed, store)
                  | Some message =>
                      let currentMessage := messagesQuery.get messageId store in
                      match encodeMessageJs currentMessage with
                      | None => (WatchSwallowed, store)
                      | Some currentMessageEncoded =>
                          if bool_decide (is_Some currentMessage)
                             && String.eqb currentMessageEncoded content
                          then (WatchSkipped, store)
                          else
                            let '(_, store') := messagesQuery.upsert messageId message store in
                            (WatchUpserted, store')
                      end
                  end
              end
          end
      end
  end.

(** The store mutations of one turn. *)
Definition watchMutations (o : WatchOutcome) : nat :=
  match o with
  | WatchUpserted => 1
  | WatchDeleted true => 1
  | _ => 0
  end.

(** ** Tracked messages *)

(** The keys of [trackedMessages] in insertion order, the disk, and the
    rejections of the [rm] promises, which nobody awaits. *)
Record SyncState := mkSyncState {
  trackedMessages : list string;
  disk : Fs;
  unhandledRejections : list Exception
}.

(** The first run of the inner effect of a message that is not tracked yet:
    it registers the disposer when the message is there. *)
Definition trackMessage (store : Store) (tracked : list string) (messageId : string)
    : list string :=
  if bool_decide (messageId ∈ tracked) then tracked
  else
    match messagesQuery.get messageId store with
    | None => tracked
    | Some _ => tracked ++ [messageId]
    end.

(** The loop over [deletedMessageTrackedMessage].  The [try] around [rm]
    sees no exception, a promise is all [rm] returns. *)
Definition untrackMessage (projectPath : string) (st : SyncState) (messageId : string)
    : SyncState :=
  let messageFilePath :=
    messageFolderPath projectPath +:+ "/" +:+ getPathFromMessageId messageId in
  let '(disk', settled) := rm (disk st) messageFilePath in
  mkSyncState
    (filter (fun t => t <> messageId) (trackedMessages st))
    disk'
    (match settled with
     | Ok _ => unhandledRejections st
     | Throw e => unhandledRejections st ++ [e]
     end).

(** The effect on [messagesQuery.includedMessageIds()]. *)
Definition trackMessagesEffect (projectPath : string) (store : Store) (st : SyncState)
    : SyncState :=
  let currentMessageIds := messagesQuery.includedMessageIds store in
  let deletedMessageTrackedMessage :=
    filter (fun t => t ∉ currentMessageIds) (trackedMessages st) in
  let registered := foldl (trackMessage store) (trackedMessages st) currentMessageIds in
  foldl (untrackMessage projectPath)
    (mkSyncState registered (disk st) (unhandledRejections st))
    deletedMessageTrackedMessage.

(** ** Import of the messages a plugin loads *)

(** [String.prototype.localeCompare] and [humanIdHash]. *)
Variable localeCompare : string -> string -> Z.
Variable humanIdHash : string -> nat -> string.

(** [importedMessages.sort((a, b) => a.id.localeCompare(b.id))]: a stable
    sort, so a message goes in front of the first one that does not
    compare below it. *)
Fixpoint insertSorted (m : Message) (sorted : list Message) : list Message :=
  match sorted with
  | [] => [m]
  | x :: rest =>
      if (localeCompare (id m) (id x) <=? 0)%Z then m :: x :: rest
      else x :: insertSorted m rest
  end.

Definition sortById (importedMessages : list Message) : list Message :=
  foldr insertSorted [] importedMessages.

Inductive Probe : Type :=
| ProbeFound (messageId : string)
| ProbeThrow (e : Exception)
| ProbeRunsOn.

(** The [do ... while (messsageId === undefined)] loop.  [fuel] bounds the
    number of turns; the loop itself has no bound, and [ProbeRunsOn] says
    that it was still turning when the fuel ran out.  [stat] is given the
    path derived from the id, without the message folder in front. *)
Fixpoint probeMessageId (fuel : nat) (fs : Fs) (importedId : string) (currentOffset : nat)
    : Probe :=
  match fuel with
  | O => ProbeRunsOn
  | S fuel' =>
      let messsageId := humanIdHash importedId currentOffset in
      let path := getPathFromMessageId messsageId in
      match stat fs path with
      | Ok _ => probeMessageId fuel' fs importedId (S currentOffset)
      | Throw e =>
          match errorCode e with
          | Some code => if String.eqb code ENOENT then ProbeFound messsageId else ProbeThrow e
          | None => ProbeThrow e
          end
      end
  end.

(** [messagesQuery.getAll().filter((message) => message.alias[loadPluginId] === importedMessage.id)] *)
Definition currentMessagesFor (loadPluginId importedId : string) (store : Store)
    : list Message :=
  filter (fun message => alias message !! loadPluginId = Some importedId)
    (messagesQuery.getAll store).

Definition duplicateAlias : Exception :=
  Error "more than one message with the same alias found ".

Inductive ImportStep : Type :=
| StepDone (changed : bool) (store : Store)
| StepThrow (e : Exception)
| StepRunsOn.

(** The message the import hands to the store: the imported variants under
    the given id, with the alias object built from the imported id. *)
Definition importedAs (loadPluginId : string) (importedMessage : Message) (newId : string)
    : Message :=
  mkMessage newId (importAlias loadPluginId (id importedMessage)) (variants importedMessage).

(** The body of [for (const importedMessage of messagesToImportSorted)]. *)
Definition importMessage (fuel : nat) (fs : Fs) (loadPluginId : string)
    (importedMessage : Message) (store : Store) : ImportStep :=
  match currentMessagesFor loadPluginId (id importedMessage) store with
  | _ :: _ :: _ => StepThrow duplicateAlias
  | [current] =>
      let imported := importedAs loadPluginId importedMessage (id current) in
      if String.eqb (encodeMessage imported) (encodeMessage current)
      then StepDone false store
      else
        let '(changed, store') := messagesQuery.update (id imported) imported store in
        StepDone changed store'
  | [] =>
      match probeMessageId fuel fs (id importedMessage) 0 with
      | ProbeFound messsageId =>
          let '(changed, store') :=
            messagesQuery.create (importedAs loadPluginId importedMessage messsageId) store in
          StepDone changed store'
      | ProbeThrow e => StepThrow e
      | ProbeRunsOn => StepRunsOn
      end
  end.

Inductive ImportEnd : Type :=
| ImportDone
| ImportThrown (e : Exception)
| ImportRunsOn.

(** How the import loop ended, the store it left, and the number of store
    mutations it made. *)
Record ImportRun := mkImportRun {
  importEnd : ImportEnd;
  importStore : Store;
  importMutations : nat
}.

Fixpoint importLoop (fuel : nat) (fs : Fs) (loadPluginId : string)
    (messagesToImportSorted : list Message) (store : Store) (mutations : nat) : ImportRun :=
  match messagesToImportSorted with
  | [] => mkImportRun ImportDone store mutations
  | importedMessage :: rest =>
      match importMessage fuel fs loadPluginId importedMessage store with
      | StepDone changed store' =>
          importLoop fuel fs loadPluginId rest store'
            (if changed then S mutations else mutations)
      | StepThrow e => mkImportRun (ImportThrown e) store mutations
      | StepRunsOn => mkImportRun ImportRunsOn store mutations
      end
  end.

(** The import block of [loadProject], for the plugin [loadPluginId] whose
    [loadMessages] returned [importedMessages]. *)
Definition importMessages (fuel : nat) (fs : Fs) (loadPluginId : string)
    (importedMessages : list Message) (store : Store) : ImportRun :=
  importLoop fuel fs loadPluginId (sortById importedMessages) store 0.

(** The stored message [m] as a list, when its alias for the plugin is
    [importedId]. *)
Definition matchOf (loadPluginId importedId : string) (m : Message) : list Message :=
  if decide (alias m !! loadPluginId = Some importedId) then [m] else [].

(** A message on which the import does nothing in [store]: its one match
    already carries the content the import would write, or it has no match
    and the id the probe finds for it is taken. *)
Definition settled (fuel : nat) (fs : Fs) (pid : string) (store : Store) (m : Message)
    : Prop :=
  (exists c, currentMessagesFor pid (id m) store = [c]
             /\ encodeMessage (importedAs pid m (id c)) = encodeMessage c)
  \/ (currentMessagesFor pid (id m) store = []
      /\ exists h, probeMessageId fuel fs (id m) 0 = ProbeFound h
                   /\ is_Some (store !! h)).

(** ** The whole of [loadProject] *)

(** [isAbsolutePath] and [resolveModules]. *)
Variable isAbsolutePath : string -> bool.
Variable resolveModules : Json -> Result ResolvedModules.

(** [/[^\\/]+\.inlang$/.test(projectPath)] *)
Definition endsInInlang (projectPath : string) : bool :=
  let n := String.length projectPath in
  match String.get (n - 8) projectPath with
  | Some c =>
      (8 <=? n)%nat
      && negb (Ascii.eqb c (Ascii.ascii_of_nat 47)) && negb (Ascii.eqb c (Ascii.ascii_of_nat 92))
      && String.eqb (String.substring (n - 7) 7 projectPath) ".inlang"
  | None => false
  end.

(** The project that [loadProject] resolves to. *)
Record InlangProject := mkInlangProject {
  errors : list Exception;
  projectSettings : option Json;
  query_messages : Store
}.

Inductive LoadProject : Type :=
| ProjectRejected (e : Exception)
| ProjectReturned (project : InlangProject)
| ProjectPending.

(** [loadProject] for a normalised [projectPath], once
    [maybeMigrateToDirectory] has run: the argument check, the settings
    effect, the resolution of the modules once the settings are
    set, the first load of the message files once the modules are
    resolved, the wait for [initialized], and the import.  The project is
    returned with the initialisation error in its [errors]; only the
    argument check and the import throw. *)
Definition loadProject (fuel : nat) (fs : Fs) (projectPath : string)
    (walk : Result (list string)) : LoadProject :=
  if negb (isAbsolutePath projectPath) then
    ProjectRejected (LoadProjectInvalidArgument "projectPath")
  else if negb (endsInInlang projectPath) then
    ProjectRejected (LoadProjectInvalidArgument "projectPath")
  else
    let '(init, st) := settingsEffect fs projectPath emptySettings in
    let resolution := resolveModules <$> settings st in
    let resolvedModules :=
      match resolution with Some (Ok modules) => Some modules | _ => None end in
    let init' :=
      match resolution with
      | Some (Throw err) => settle init (InitFailed err)
      | _ => init
      end in
    let loaded :=
      match resolvedModules with
      | Some _ => loadAndSetMessages fs projectPath walk (mkLoadState None ∅ init')
      | None => mkLoadState None ∅ init'
      end in
    match initializeError (initialized loaded) with
    | None => ProjectPending
    | Some initError =>
        let store := createMessagesQuery (messages loaded) in
        let project store' :=
          mkInlangProject (projectErrors initError (moduleErrors <$> resolvedModules))
            (settings st) store' in
        match resolvedModules ≫= loadMessagesPlugin with
        | None => ProjectReturned (project store)
        | Some (loadPluginId, importedMessages) =>
            let run := importMessages fuel fs loadPluginId importedMessages store in
            match importEnd run with
            | ImportDone => ProjectReturned (project (importStore run))
            | ImportThrown e => ProjectRejected e
            | ImportRunsOn => ProjectPending
            end
        end
    end.

(** Drops the collaborators that the goal does not mention, so that the
    solvers leave them out of the proof. *)
Ltac drop_unused :=
  repeat match goal with
         | f : _ -> _ |- _ => clear f
         | o : option string |- _ => clear o
         end.

(** ** Alias matches under store updates *)

Lemma importAlias_lookup (loadPluginId importedId : string) :
  importAlias loadPluginId importedId !! loadPluginId = Some importedId.
Proof.
  unfold importAlias.
  destruct (decide ("library.inlang.paraglideJs" = loadPluginId)) as [<-|Hne].
  - apply lookup_insert_eq.
  - rewrite lookup_insert_ne by done. apply lookup_insert_eq.
Qed.

Lemma currentMessagesFor_insert_fresh pid k i x (store : Store) :
  store !! i = None ->
  currentMessagesFor pid k (<[i := x]> store)
    ≡ₚ matchOf pid k x ++ currentMessagesFor pid k store.
Proof.
  intros Hi. unfold currentMessagesFor, messagesQuery.getAll, matchOf.
  rewrite (map_to_list_insert store i x Hi), fmap_cons, filter_cons. simpl.
  destruct (decide (alias x !! pid = Some k)); reflexivity.
Qed.

Lemma currentMessagesFor_split pid k i y (store : Store) :
  store !! i = Some y ->
  currentMessagesFor pid k store
    ≡ₚ matchOf pid k y ++ currentMessagesFor pid k (delete i store).
Proof.
  intros Hi.
  rewrite <- (currentMessagesFor_insert_fresh pid k i y (delete i store))
    by apply lookup_delete_eq.
  rewrite insert_delete_eq, insert_id by done. reflexivity.
Qed.

Lemma currentMessagesFor_insert pid k i x (store : Store) :
  currentMessagesFor pid k (<[i := x]> store)
    ≡ₚ matchOf pid k x ++ currentMessagesFor pid k (delete i store).
Proof.
  rewrite <- insert_delete_eq.
  apply currentMessagesFor_insert_fresh, lookup_delete_eq.
Qed.

Lemma currentMessagesFor_elem pid k c (store : Store) :
  c ∈ currentMessagesFor pid k store <->
  (exists i, store !! i = Some c) /\ alias c !! pid = Some k.
Proof.
  unfold currentMessagesFor, messagesQuery.getAll.
  rewrite list_elem_of_filter, list_elem_of_fmap. split.
  - intros [Ha [[i m] [-> Hin]]]. apply elem_of_map_to_list in Hin. eauto.
  - intros [[i Hi] Ha]. split; [done|]. exists (i, c). split; [done|].
    by apply elem_of_map_to_list.
Qed.

Lemma storeKeyedById_lookup (store : Store) k m :
  storeKeyedById store -> store !! k = Some m -> id m = k.
Proof. intros Hwf Hk. exact (Hwf k m Hk). Qed.

Lemma storeKeyedById_insert (store : Store) m :
  storeKeyedById store -> storeKeyedById (<[id m := m]> store).
Proof. intros Hwf. by apply map_Forall_insert_2. Qed.

Lemma currentMessagesFor_at pid k c (store : Store) :
  storeKeyedById store ->
  c ∈ currentMessagesFor pid k store ->
  store !! id c = Some c /\ alias c !! pid = Some k.
Proof.
  intros Hwf [[i Hi] Ha]%currentMessagesFor_elem.
  by rewrite (storeKeyedById_lookup _ _ _ Hwf Hi).
Qed.



Lemma importMessage_settles fuel fs pid store m changed store' :
  storeKeyedById store ->
  importMessage fuel fs pid m store = StepDone changed store' ->
  storeKeyedById store' /\ settled fuel fs pid store' m.
Proof.
  intros Hwf. unfold importMessage.
  destruct (currentMessagesFor pid (id m) store) as [|c [|c' rest]] eqn:Hcm; [| |done].
  - destruct (probeMessageId fuel fs (id m) 0) as [h| |] eqn:Hprobe; [|done..].
    unfold messagesQuery.create. simpl.
    destruct (store !! h) as [y|] eqn:Hh; intros [= <- <-].
    + split; [done|]. right. eauto.
    + split; [by apply (storeKeyedById_insert store (importedAs pid m h))|].
      left. exists (importedAs pid m h). split; [|done].
      apply Permutation_singleton_r.
      rewrite currentMessagesFor_insert_fresh by done.
      unfold matchOf. simpl. rewrite importAlias_lookup, decide_True by done.
      by rewrite Hcm.
  - assert (Hc : c ∈ currentMessagesFor pid (id m) store) by (rewrite Hcm; constructor).
    destruct (currentMessagesFor_at _ _ _ _ Hwf Hc) as [Hat Ha].
    destruct (String.eqb _ _) eqn:Henc.
    + intros [= <- <-]. split; [done|]. left. exists c. split; [done|].
      by apply String.eqb_eq.
    + unfold messagesQuery.update. simpl. rewrite Hat. intros [= <- <-].
      split; [by apply (storeKeyedById_insert store (importedAs pid m (id c)))|].
      left. exists (importedAs pid m (id c)). split; [|done].
      apply Permutation_singleton_r.
      rewrite currentMessagesFor_insert.
      unfold matchOf. simpl. rewrite importAlias_lookup, decide_True by done.
      pose proof (currentMessagesFor_split pid (id m) (id c) c store Hat) as Hsplit.
      rewrite Hcm in Hsplit. unfold matchOf in Hsplit.
      rewrite decide_True in Hsplit by done.
      simpl in Hsplit. apply Permutation_cons_inv in Hsplit.
      apply Permutation_nil_l in Hsplit. by rewrite <- Hsplit.
Qed.





Lemma insertSorted_Permutation m (l : list Message) : insertSorted m l ≡ₚ m :: l.
Proof.
  induction l as [|x l IH]; simpl; [done|].
  destruct (_ <=? _)%Z; [done|]. rewrite IH. apply Permutation_swap.
Qed.

Lemma sortById_Permutation (l : list Message) : sortById l ≡ₚ l.
Proof.
  induction l as [|m l IH]; simpl; [done|].
  by rewrite insertSorted_Permutation, IH.
Qed.


Lemma createMessagesQuery_keyed (messages : option (list Message)) :
  storeKeyedById (createMessagesQuery messages).
Proof.
  unfold createMessagesQuery.
  assert (H : forall (l : list Message) (store : Store), storeKeyedById store ->
            storeKeyedById (foldl (fun store m => <[id m := m]> store) store l)).
  { induction l as [|m l IH]; intros store Hwf; simpl; [done|].
    by apply IH, storeKeyedById_insert. }
  apply H, map_Forall_empty.
Qed.

(** ** What the probe finds *)

(** The id that the probe returns is the first candidate, from the offset
    it starts at, for which [stat] of the derived path reports [ENOENT]. *)
Lemma probeMessageId_found fuel fs importedId :
  forall currentOffset messsageId,
  probeMessageId fuel fs importedId currentOffset = ProbeFound messsageId ->
  exists offset,
    messsageId = humanIdHash importedId offset
    /\ currentOffset <= offset
    /\ stat fs (getPathFromMessageId messsageId) = Throw (FsError ENOENT)
    /\ forall earlier, currentOffset <= earlier < offset ->
         stat fs (getPathFromMessageId (humanIdHash importedId earlier)) = Ok tt.
Proof.
  induction fuel as [|fuel IH]; intros currentOffset messsageId; simpl; [done|].
  destruct (stat fs (getPathFromMessageId (humanIdHash importedId currentOffset)))
    as [[]|e] eqn:Hstat.
  - intros (offset & -> & Hle & Hfree & Hbusy)%IH.
    exists offset. repeat split; [lia|done|].
    intros earlier Hrange. destruct (decide (earlier = currentOffset)) as [->|Hne]; [done|].
    apply Hbusy. lia.
  - destruct e as [| |code| | | | |]; simpl; try done.
    destruct (String.eqb code ENOENT) eqn:Hcode; [|done].
    apply String.eqb_eq in Hcode as ->. intros [= <-].
    exists currentOffset. repeat split; [lia|done|]. intros earlier Hrange. lia.
Qed.

(** Two imported messages whose first candidates are the same id, on a
    disk where the derived path is free: the probe looks at the disk alone,
    both are given the id, and the store keeps the first and drops the
    second. *)
Lemma importLoop_same_candidate fuel (fs : Fs) pid (a b : Message) :
  id a <> id b ->
  humanIdHash (id a) 0 = humanIdHash (id b) 0 ->
  fs !! getPathFromMessageId (humanIdHash (id a) 0) = None ->
  importLoop (S fuel) fs pid [a; b] ∅ 0
  = mkImportRun ImportDone
      {[ humanIdHash (id a) 0 := importedAs pid a (humanIdHash (id a) 0) ]} 1.
Proof.
  intros Hne Hsame Hfree.
  assert (Hprobe : forall m, humanIdHash (id m) 0 = humanIdHash (id a) 0 ->
            probeMessageId (S fuel) fs (id m) 0 = ProbeFound (humanIdHash (id a) 0)).
  { intros m Hm. simpl. unfold stat. by rewrite Hm, Hfree. }
  assert (Hnone : currentMessagesFor pid (id a) ∅ = []).
  { unfold currentMessagesFor, messagesQuery.getAll. by rewrite map_to_list_empty. }
  unfold importLoop, importMessage at 1.
  rewrite Hnone, (Hprobe a) by done. unfold messagesQuery.create at 1.
  change (id (importedAs pid a (humanIdHash (id a) 0))) with (humanIdHash (id a) 0).
  rewrite lookup_empty, insert_empty.
  assert (Hnone' : currentMessagesFor pid (id b)
                     {[ humanIdHash (id a) 0 := importedAs pid a (humanIdHash (id a) 0) ]}
                   = []).
  { apply Permutation_nil_r.
    rewrite <- insert_empty, currentMessagesFor_insert_fresh by apply lookup_empty.
    unfold matchOf. simpl. rewrite importAlias_lookup.
    rewrite decide_False by congruence.
    unfold currentMessagesFor, messagesQuery.getAll. by rewrite map_to_list_empty. }
  unfold importMessage. rewrite Hnone', (Hprobe b) by done.
  unfold messagesQuery.create.
  change (id (importedAs pid b (humanIdHash (id a) 0))) with (humanIdHash (id a) 0).
  by rewrite lookup_singleton_eq.
Qed.

(** ** Duplicate aliases *)




(** ** Settings: what [parseSettings] and [loadSettings] throw *)

Lemma checkSourceLanguageTag_throws value withMigration e :
  checkSourceLanguageTag value withMigration = Throw e ->
  e = TypeError \/ exists errors, e = ProjectSettingsInvalidError errors.
Proof.
  unfold checkSourceLanguageTag.
  destruct value; try (intros [= <-]; by left);
    (destruct (includes _ _) as [[|]|e'] eqn:Hinc; [done| |];
     [ destruct (joinTags _) as [joined|e''] eqn:Hjoin;
       [ intros [= <-]; right; eauto
       | unfold joinTags in Hjoin; repeat case_match; simplify_eq; intros [= <-]; by left ]
     | unfold includes in Hinc; repeat case_match; simplify_eq; intros [= <-]; by left ]).
Qed.

Lemma parseSettings_throws value e :
  parseSettings value = Throw e ->
  e = TypeError \/ exists errors, e = ProjectSettingsInvalidError errors.
Proof.
  unfold parseSettings.
  destruct (negb _); [destruct (_ <? _)%nat|];
    try apply checkSourceLanguageTag_throws.
  intros [= <-]. right. eauto.
Qed.

(** What an accepted value has passed: the validator accepted the migrated
    value or listed no error for the value as given, and the tags of the
    value as given include its source tag.  The migrated value is returned. *)
Lemma parseSettings_Ok value validated :
  parseSettings value = Ok validated ->
  validated = migrateIfOutdated value
  /\ (Check (migrateIfOutdated value) = true \/ Errors value = [])
  /\ includes (getProperty "languageTags" value) (getProperty "sourceLanguageTag" value)
     = Ok true.
Proof.
  unfold parseSettings.
  assert (Hsem : checkSourceLanguageTag value (migrateIfOutdated value) = Ok validated ->
                 validated = migrateIfOutdated value
                 /\ includes (getProperty "languageTags" value)
                      (getProperty "sourceLanguageTag" value) = Ok true).
  { unfold checkSourceLanguageTag.
    destruct value; try done;
      (destruct (includes _ _) as [[|]|e'] eqn:Hinc; [|destruct (joinTags _); done|done];
       intros [= <-]; done). }
  destruct (Check _) eqn:Hcheck; simpl.
  - intros [-> Hinc]%Hsem. eauto.
  - destruct (Errors value) as [|err errs] eqn:Herr; simpl; [|done].
    intros [-> Hinc]%Hsem. eauto.
Qed.

(** A rejected value leaves the settings, and what is queued for the disk,
    as they were. *)
Lemma setSettings_rejected st value r st' :
  setSettings st value = (r, st') -> r <> ResultData -> st' = st.
Proof.
  unfold setSettings.
  destruct (parseSettings value) as [v|[]]; intros [= <- <-]; done.
Qed.

Lemma setSettings_error st value err st' :
  setSettings st value = (ResultError err, st') ->
  st' = st /\ exists errors, err = ProjectSettingsInvalidError errors
                             /\ parseSettings value = Throw err.
Proof.
  unfold setSettings.
  destruct (parseSettings value) as [v|[]] eqn:Hp; intros [= <- <-]; eauto.
Qed.

(** C8 (amended). [loadSettings] throws the not-found error exactly when
    the read of the settings file fails, for whatever reason, and the
    syntax error exactly when the file is read and [JSON.parse] throws on
    its text.  When the file does not exist the settings effect fails the
    initialisation with the not-found error, and [loadProject], given a
    well-formed project path, returns a project whose [errors] hold it. *)
Theorem C8_loadSettings_errors fuel fs projectPath walk :
  let settingsFilePath := projectPath +:+ "/settings.json" in
  ((exists cause, loadSettings fs settingsFilePath
                  = Throw (ProjectSettingsFileNotFoundError cause settingsFilePath))
   <-> exists cause, readFile fs settingsFilePath = Throw cause)
  /\ (loadSettings fs settingsFilePath
        = Throw (ProjectSettingsFileJSONSyntaxError settingsFilePath)
      <-> exists text, readFile fs settingsFilePath = Ok text /\ JSON_parse text = None)
  /\ (fs !! settingsFilePath = None ->
      isAbsolutePath projectPath = true ->
      endsInInlang projectPath = true ->
      let notFound := ProjectSettingsFileNotFoundError (FsError ENOENT) settingsFilePath in
      loadSettings fs settingsFilePath = Throw notFound
      /\ settingsEffect fs projectPath emptySettings = (InitFailed notFound, emptySettings)
      /\ loadProject fuel fs projectPath walk
         = ProjectReturned (mkInlangProject [notFound] None ∅)).
Proof.
  intros settingsFilePath. split; [|split].
  - unfold loadSettings. split.
    + intros [cause Hthrow].
      destruct (readFile fs settingsFilePath) as [text|e]; [|eauto].
      destruct (JSON_parse text); [|done].
      apply parseSettings_throws in Hthrow as [?|[? ?]]; done.
    + intros [cause ->]. by exists cause.
  - unfold loadSettings. split.
    + destruct (readFile fs settingsFilePath) as [text|e]; [|done].
      destruct (JSON_parse text) eqn:Hparse; [|eauto].
      intros Hthrow. apply parseSettings_throws in Hthrow as [?|[? ?]]; done.
    + intros (text & -> & ->). done.
  - intros Hmissing Habsolute Hsuffix notFound.
    assert (Hload : loadSettings fs settingsFilePath = Throw notFound).
    { unfold loadSettings, readFile. by rewrite Hmissing. }
    assert (Heffect : settingsEffect fs projectPath emptySettings
                      = (InitFailed notFound, emptySettings)).
    { unfold settingsEffect. fold settingsFilePath. by rewrite Hload. }
    repeat split; [done..|].
    unfold loadProject. by rewrite Habsolute, Hsuffix, Heffect.
Qed.

(** ** The watcher *)

Lemma readFileContent_missing (fs : Fs) path :
  fs !! path = None -> readFileContent fs path = Ok None.
Proof. intros H. unfold readFileContent, readFile. by rewrite H. Qed.

Lemma readFileContent_file (fs : Fs) path content :
  readFile fs path = Ok content -> readFileContent fs path = Ok (Some content).
Proof. intros H. unfold readFileContent. by rewrite H. Qed.

(** The turn of the loop for an event whose file reads as [fileContent],
    with nothing or the empty string for a falsy content. *)
Lemma handleWatchEvent_falsy fs projectPath name messageId fileContent store :
  truthy (Some name) = Some name ->
  truthy (getMessageIdFromPath name) = Some messageId ->
  readFileContent fs (messageFolderPath projectPath +:+ "/" +:+ name) = Ok fileContent ->
  truthy fileContent = None ->
  handleWatchEvent fs projectPath (Some name) store
  = (WatchDeleted (bool_decide (is_Some (store !! messageId))), delete messageId store).
Proof.
  intros Hname Hid Hread Hfalsy. unfold handleWatchEvent.
  rewrite Hname, Hid, Hread, Hfalsy. unfold messagesQuery.delete.
  destruct (store !! messageId) as [m|] eqn:Hm.
  - by rewrite bool_decide_true by eauto.
  - rewrite bool_decide_false by (by intros [? ?]). by rewrite delete_id.
Qed.

(** The turn of the loop for an event whose file has a content. *)
Lemma handleWatchEvent_content fs projectPath name messageId content store :
  truthy (Some name) = Some name ->
  truthy (getMessageIdFromPath name) = Some messageId ->
  readFileContent fs (messageFolderPath projectPath +:+ "/" +:+ name) = Ok (Some content) ->
  truthy (Some content) = Some content ->
  handleWatchEvent fs projectPath (Some name) store
  = match parseMessage name content with
    | None => (WatchSwallowed, store)
    | Some message =>
        match store !! messageId with
        | Some current =>
            if String.eqb (encodeMessage current) content then (WatchSkipped, store)
            else (WatchUpserted, <[messageId := message]> store)
        | None =>
            match encodeUndefined with
            | None => (WatchSwallowed, store)
            | Some _ => (WatchUpserted, <[messageId := message]> store)
            end
        end
    end.
Proof.
  intros Hname Hid Hread Hcontent. unfold handleWatchEvent.
  rewrite Hname, Hid, Hread, Hcontent.
  destruct (parseMessage name content) as [message|]; [|done].
  unfold messagesQuery.get, messagesQuery.upsert.
  destruct (store !! messageId) as [current|]; simpl.
  - by destruct (String.eqb _ _).
  - by destruct encodeUndefined.
Qed.

(** C4 (amended). Two turns of the watcher loop for the same event, the
    file unchanged in between, make at most one store mutation, provided
    the content of the file is the encoding of the message it decodes to:
    what the loop compares with the encoding of the stored message is the
    content as read.  A turn that upserts is then followed by a turn that
    skips. *)
Theorem C4_same_event_twice fs projectPath filename store :
  (forall name content message,
     filename = Some name ->
     readFile fs (messageFolderPath projectPath +:+ "/" +:+ name) = Ok content ->
     parseMessage name content = Some message ->
     encodeMessage message = content) ->
  let first := handleWatchEvent fs projectPath filename store in
  let second := handleWatchEvent fs projectPath filename first.2 in
  watchMutations first.1 + watchMutations second.1 <= 1
  /\ (first.1 = WatchUpserted -> second.1 = WatchSkipped /\ second.2 = first.2).
Proof.
  intros Hcanonical first second. subst second first.
  destruct (truthy filename) as [name|] eqn:Hname.
  2:{ unfold handleWatchEvent. rewrite Hname. simpl. split; [lia|done]. }
  assert (Hfile : filename = Some name).
  { destruct filename as [[|]|]; simpl in Hname; congruence. }
  subst filename.
  destruct (truthy (getMessageIdFromPath name)) as [messageId|] eqn:Hid.
  2:{ unfold handleWatchEvent. rewrite !Hname, !Hid. simpl. split; [lia|done]. }
  destruct (readFileContent fs (messageFolderPath projectPath +:+ "/" +:+ name))
    as [fileContent|e] eqn:Hread.
  2:{ unfold handleWatchEvent. rewrite !Hname, !Hid, !Hread. simpl. split; [lia|done]. }
  destruct (truthy fileContent) as [content|] eqn:Hcontent.
  - assert (fileContent = Some content) as ->.
    { destruct fileContent as [[|]|]; simpl in Hcontent; congruence. }
    assert (Hraw : readFile fs (messageFolderPath projectPath +:+ "/" +:+ name) = Ok content).
    { unfold readFileContent in Hread.
      destruct (readFile fs _) as [raw|e]; [congruence|].
      repeat case_match; simplify_eq. }
    pose proof (handleWatchEvent_content fs projectPath name messageId content)
      as Hturn.
    rewrite !Hturn by done.
    destruct (parseMessage name content) as [message|] eqn:Hparse;
      [|simpl; split; [lia|done]].
    pose proof (Hcanonical name content message eq_refl Hraw Hparse) as Henc.
    destruct (store !! messageId) as [current|] eqn:Hcurrent.
    + destruct (String.eqb (encodeMessage current) content) eqn:Heq; simpl.
      * rewrite Hcurrent, Heq. simpl. split; [lia|done].
      * rewrite lookup_insert_eq, Henc, String.eqb_refl. simpl. split; [lia|done].
    + destruct encodeUndefined as [encoded|]; simpl.
      * rewrite lookup_insert_eq, Henc, String.eqb_refl. simpl. split; [lia|done].
      * rewrite Hcurrent. simpl. split; [lia|done].
  - pose proof (handleWatchEvent_falsy fs projectPath name messageId fileContent)
      as Hturn.
    rewrite !Hturn by done. simpl.
    rewrite lookup_delete_eq.
    rewrite (bool_decide_false (is_Some None)) by (by intros [? ?]).
    destruct (bool_decide _); simpl; split; (lia || done).
Qed.

(** ** Tracked messages and the files of removed messages *)

Lemma includedMessageIds_elem (store : Store) k :
  k ∈ messagesQuery.includedMessageIds store <-> is_Some (store !! k).
Proof.
  unfold messagesQuery.includedMessageIds. rewrite list_elem_of_fmap. split.
  - intros [[i m] [-> Hin]]. apply elem_of_map_to_list in Hin. by eexists.
  - intros [m Hm]. exists (k, m). split; [done|]. by apply elem_of_map_to_list.
Qed.

Lemma rm_lookup (fs : Fs) path p :
  (rm fs path).1 !! p = None \/ (rm fs path).1 !! p = fs !! p.
Proof.
  unfold rm. destruct (fs !! path) as [[| |]|]; simpl; try by right.
  destruct (decide (path = p)) as [->|Hne].
  - left. apply lookup_delete_eq.
  - right. by apply lookup_delete_ne.
Qed.


Lemma untrackMessage_disk projectPath st messageId :
  disk (untrackMessage projectPath st messageId)
  = (rm (disk st) (messageFolderPath projectPath +:+ "/" +:+ getPathFromMessageId messageId)).1.
Proof. unfold untrackMessage. by destruct (rm _ _). Qed.

Lemma untrackMessage_tracked projectPath st messageId :
  trackedMessages (untrackMessage projectPath st messageId)
  = filter (fun t => t <> messageId) (trackedMessages st).
Proof. unfold untrackMessage. by destruct (rm _ _). Qed.

(** The removals never bring a file back. *)
Lemma untrack_lookup projectPath (l : list string) :
  forall st p,
  disk (foldl (untrackMessage projectPath) st l) !! p = None
  \/ disk (foldl (untrackMessage projectPath) st l) !! p = disk st !! p.
Proof.
  induction l as [|t l IH]; intros st p; simpl; [by right|].
  destruct (IH (untrackMessage projectPath st t) p) as [?|Heq]; [by left|].
  rewrite Heq, untrackMessage_disk.
  apply rm_lookup.
Qed.


Lemma untrack_tracked projectPath (l : list string) messageId :
  forall st,
  messageId ∈ trackedMessages (foldl (untrackMessage projectPath) st l)
  <-> messageId ∈ trackedMessages st /\ messageId ∉ l.
Proof.
  induction l as [|t l IH]; intros st; simpl.
  - split; [intros ?; split; [done|apply not_elem_of_nil]|by intros [? _]].
  - rewrite IH, untrackMessage_tracked, list_elem_of_filter, not_elem_of_cons.
    (drop_unused; naive_solver).
Qed.

Lemma trackMessage_registers (store : Store) (ids : list string) messageId :
  forall tracked,
  messageId ∈ foldl (trackMessage store) tracked ids
  <-> messageId ∈ tracked \/ (messageId ∈ ids /\ is_Some (store !! messageId)).
Proof.
  induction ids as [|t ids IH]; intros tracked; simpl.
  - split; [by left|]. intros [?|[Hin _]]; [done|by apply elem_of_nil in Hin].
  - rewrite IH, elem_of_cons. unfold trackMessage, messagesQuery.get.
    destruct (bool_decide (t ∈ tracked)) eqn:Ht.
    + apply bool_decide_eq_true in Ht. split; [(drop_unused; naive_solver)|].
      intros [?|[[->|?] ?]]; eauto.
    + destruct (store !! t) as [m|] eqn:Hm.
      * rewrite elem_of_app, list_elem_of_singleton. split; [(drop_unused; naive_solver)|].
        intros [?|[[->|?] ?]]; eauto.
      * split; [(drop_unused; naive_solver)|].
        intros [?|[[->|?] [? ?]]]; eauto. congruence.
Qed.

(** After the effect has run, the tracked ids are the ids in the store. *)
Lemma trackMessagesEffect_tracked projectPath (store : Store) st messageId :
  messageId ∈ trackedMessages (trackMessagesEffect projectPath store st)
  <-> is_Some (store !! messageId).
Proof.
  unfold trackMessagesEffect. rewrite untrack_tracked. simpl.
  rewrite trackMessage_registers, list_elem_of_filter, !includedMessageIds_elem.
  split; [|(drop_unused; naive_solver)].
  intros [[Htracked|[_ ?]] Hnot]; [|done].
  destruct (decide (is_Some (store !! messageId))); [done|].
  exfalso. apply Hnot. done.
Qed.


(** ** The first load of the message files *)

Lemma loadMessageFile_app fs projectPath (paths : list string) :
  forall loadedMessages,
  foldl (loadMessageFile fs projectPath) loadedMessages paths
  = loadedMessages ++ foldl (loadMessageFile fs projectPath) [] paths.
Proof.
  induction paths as [|path paths IH]; intros loadedMessages; simpl.
  - by rewrite app_nil_r.
  - rewrite IH, (IH (loadMessageFile fs projectPath [] path)), app_assoc. f_equal.
    unfold loadMessageFile. repeat case_match; by rewrite ?app_nil_r.
Qed.

Lemma loadMessageFile_undecodable fs projectPath loadedMessages path messageRaw :
  readFile fs (messageFolderPath projectPath +:+ path) = Ok messageRaw ->
  parseMessage path messageRaw = None ->
  loadMessageFile fs projectPath loadedMessages path = loadedMessages.
Proof.
  intros Hread Hparse. unfold loadMessageFile. rewrite Hread, Hparse.
  by destruct (truthy _).
Qed.

(** C6 (amended). A message file that is read and does not decode stops
    nothing: the load commits the messages of the files before and after
    it, in their order, and marks the initialisation complete.  The file is
    passed over without a trace; [messageParseErrors] is left as it was,
    and [loadProject] returns what it returns when the file is not there,
    [errors] included. *)
Theorem C6_undecodable_file_is_passed_over fuel fs projectPath (pre post : list string)
    (bad messageRaw : string) (st : LoadState) :
  readFile fs (messageFolderPath projectPath +:+ bad) = Ok messageRaw ->
  parseMessage bad messageRaw = None ->
  initialized st = InitPending ->
  let loaded := loadAndSetMessages fs projectPath (Ok (pre ++ bad :: post)) st in
  messages loaded
  = Some (foldl (loadMessageFile fs projectPath) [] pre
          ++ foldl (loadMessageFile fs projectPath) [] post)
  /\ initialized loaded = InitComplete
  /\ messageParseErrors loaded = messageParseErrors st
  /\ loaded = loadAndSetMessages fs projectPath (Ok (pre ++ post)) st
  /\ loadProject fuel fs projectPath (Ok (pre ++ bad :: post))
     = loadProject fuel fs projectPath (Ok (pre ++ post)).
Proof.
  intros Hread Hparse Hpending loaded.
  assert (Hfold : foldl (loadMessageFile fs projectPath) [] (pre ++ bad :: post)
                  = foldl (loadMessageFile fs projectPath) [] (pre ++ post)).
  { rewrite !foldl_app. simpl.
    by rewrite (loadMessageFile_undecodable _ _ _ _ _ Hread Hparse). }
  assert (Hsame : forall st0,
            loadAndSetMessages fs projectPath (Ok (pre ++ bad :: post)) st0
            = loadAndSetMessages fs projectPath (Ok (pre ++ post)) st0).
  { intros st0. unfold loadAndSetMessages. by rewrite Hfold. }
  repeat split.
  - unfold loaded. simpl. rewrite Hfold, foldl_app. apply f_equal, loadMessageFile_app.
  - unfold loaded. simpl. by rewrite Hpending.
  - apply Hsame.
  - unfold loadProject.
    destruct (settingsEffect fs projectPath emptySettings) as [init settled].
    cbv zeta. by rewrite Hsame.
Qed.

(** ** Further properties of the settings *)

(** [skipFirst(func)]: the wrapper holds the flag [initial]; a call returns
    what [func] returns once the flag is set, and nothing before, and sets
    the flag. *)
Definition skipFirst {A B : Type} (func : A -> B) (initial : bool) (args : A)
    : option B * bool :=
  if initial then (Some (func args), initial) else (None, true).

(** The calls of a wrapper in a row, from a given flag. *)
Fixpoint skipFirstCalls {A B : Type} (func : A -> B) (initial : bool) (calls : list A)
    : list (option B) :=
  match calls with
  | [] => []
  | args :: rest =>
      let '(result, initial') := skipFirst func initial args in
      result :: skipFirstCalls func initial' rest
  end.

(** A fresh wrapper swallows its first call and passes on every later one. *)
Lemma skipFirstCalls_fresh {A B : Type} (func : A -> B) (first : A)
    (later : list A) :
  skipFirstCalls func false (first :: later) = None :: ((fun args => Some (func args)) <$> later).
Proof.
  simpl. f_equal.
  induction later as [|args later IH]; simpl; [done|]. by rewrite IH.
Qed.

(** X1. The error list of a settings error that [parseSettings] throws is never
    empty. *)
Theorem X1_parseSettings_invalid_lists_errors value errors :
  parseSettings value = Throw (ProjectSettingsInvalidError errors) ->
  exists error rest, errors = error :: rest.
Proof.
  unfold parseSettings.
  assert (Hsem : checkSourceLanguageTag value (migrateIfOutdated value)
                 = Throw (ProjectSettingsInvalidError errors) ->
                 exists error rest, errors = error :: rest).
  { unfold checkSourceLanguageTag, includes, joinTags.
    intros Hthrow. repeat case_match; simplify_eq; eauto. }
  destruct (negb _); [|done].
  destruct (Errors value) as [|err errs] eqn:Herr; simpl; [done|].
  intros [= <-]. eauto.
Qed.

(** X2. For a value that the migration leaves as it is, and a validator that
    lists an error for it whenever it does not check, [parseSettings]
    returns a value exactly when the value checks and its language tags
    include its source language tag, and then it returns the value itself. *)
Theorem X2_parseSettings_current_shape value :
  migrateIfOutdated value = value ->
  (Check value = false -> Errors value <> []) ->
  forall validated,
  parseSettings value = Ok validated
  <-> validated = value
      /\ Check value = true
      /\ includes (getProperty "languageTags" value)
           (getProperty "sourceLanguageTag" value) = Ok true.
Proof.
  intros Hsame Hcoherent validated. split.
  - intros (-> & Hchecked & Hincludes)%parseSettings_Ok.
    rewrite Hsame in *. split; [done|]. split; [|done].
    destruct Hchecked as [?|Hnone]; [done|].
    destruct (Check value) eqn:Hcheck; [done|]. by destruct (Hcoherent eq_refl).
  - intros (-> & Hcheck & Hincludes). unfold parseSettings.
    rewrite Hsame, Hcheck. simpl. unfold checkSourceLanguageTag.
    rewrite Hincludes. by destruct value.
Qed.

(** X3. A call of [setSettings] that does not return [data] changes nothing:
    the settings, the flag of the write wrapper and the queued writes stay. *)
Theorem X3_setSettings_refusal_changes_nothing st value :
  (setSettings st value).1 <> ResultData -> (setSettings st value).2 = st.
Proof.
  unfold setSettings.
  by destruct (parseSettings value) as [v|[]].
Qed.

(** A row of calls of [setSettings], each with a value that
    [parseSettings] accepts. *)
Definition setSettingsAll (st : SettingsState) (values : list Json) : SettingsState :=
  foldl (fun st value => (setSettings st value).2) st values.

Lemma setSettings_accepted st value :
  isOk (parseSettings value) = true ->
  (setSettings st value).2
  = mkSettingsState (Some (migrateIfOutdated value)) true
      (if initial st then settingsWrites st ++ [migrateIfOutdated value]
       else settingsWrites st).
Proof.
  unfold setSettings.
  destruct (parseSettings value) as [validated|] eqn:Hparse; [|done].
  by apply parseSettings_Ok in Hparse as (-> & _).
Qed.

Lemma setSettingsAll_accepted (values : list Json) :
  forall st,
  Forall (fun value => isOk (parseSettings value) = true) values ->
  settingsWrites (setSettingsAll st values)
  = settingsWrites st
    ++ omap (fun write => write)
         (skipFirstCalls (fun v : Json => v) (initial st) (migrateIfOutdated <$> values))
  /\ settings (setSettingsAll st values)
     = match last values with
       | Some value => Some (migrateIfOutdated value)
       | None => settings st
       end.
Proof.
  induction values as [|value values IH]; intros st Hall.
  - simpl. by rewrite app_nil_r.
  - apply Forall_cons in Hall as [Hvalue Hall].
    change (setSettingsAll st (value :: values))
      with (setSettingsAll (setSettings st value).2 values).
    destruct (IH (setSettings st value).2 Hall) as [-> ->].
    rewrite (setSettings_accepted st value Hvalue). simpl. split.
    + unfold skipFirst. destruct (initial st); simpl; [by rewrite <- app_assoc|done].
    + destruct values as [|v vs]; [done|].
      rewrite last_cons_cons. destruct (last (v :: vs)) eqn:Hlast; [done|].
      by apply last_None in Hlast.
Qed.

(** X4. On a fresh project, calls of [setSettings] with accepted values hand the
    disk every validated value but the first, in order, as [skipFirst]
    lets them through; the settings are the last validated value. *)
Theorem X4_setSettings_writes_all_but_first (first : Json) (later : list Json) :
  Forall (fun value => isOk (parseSettings value) = true) (first :: later) ->
  settingsWrites (setSettingsAll emptySettings (first :: later))
  = migrateIfOutdated <$> later
  /\ settings (setSettingsAll emptySettings (first :: later))
     = Some (migrateIfOutdated (default first (last later))).
Proof.
  intros Hall. destruct (setSettingsAll_accepted (first :: later) emptySettings Hall)
    as [-> ->].
  split.
  - change (initial emptySettings) with false.
    rewrite fmap_cons, skipFirstCalls_fresh. simpl.
    induction later as [|v later IH]; simpl; [done|].
    apply Forall_cons in Hall as [Hfirst [Hv Hlater]%Forall_cons].
    f_equal. apply IH. by constructor.
  - rewrite last_cons. by destruct (last later).
Qed.

(** X5. The settings effect parses twice, in [loadSettings] and again in
    [setSettings]: when both accept the content of the settings file, the
    settings are set to the migration of the migrated content, nothing is
    written back to the disk, and the initialisation is left to the later
    effects. *)
Theorem X5_settingsEffect_migrates_twice fs projectPath text json once twice :
  readFile fs (projectPath +:+ "/settings.json") = Ok text ->
  JSON_parse text = Some json ->
  parseSettings json = Ok once ->
  parseSettings once = Ok twice ->
  settingsEffect fs projectPath emptySettings
  = (InitPending,
     mkSettingsState (Some (migrateIfOutdated (migrateIfOutdated json))) true []).
Proof.
  intros Hread Hjson Honce Htwice. unfold settingsEffect, loadSettings, setSettings.
  rewrite Hread, Hjson, Honce, Htwice. simpl.
  apply parseSettings_Ok in Honce as (-> & _).
  by apply parseSettings_Ok in Htwice as (-> & _).
Qed.

(** ** Further properties of the first load *)

(** What one message file gives to the load. *)
Definition messageOfFile (fs : Fs) (projectPath messageFilePath : string)
    : option Message :=
  match truthy (getMessageIdFromPath messageFilePath),
        readFile fs (messageFolderPath projectPath +:+ messageFilePath) with
  | Some _, Ok messageRaw => parseMessage messageFilePath messageRaw
  | _, _ => None
  end.

(** X6. The messages that the load sets are the decoded files, one by one in the
    order of the walk: a file gives its message when an id derives from its
    path, it is read and it decodes, and gives nothing otherwise, whatever
    the other files are. *)
Theorem X6_load_takes_each_file_alone fs projectPath (messageFilePaths : list string)
    (st : LoadState) :
  messages (loadAndSetMessages fs projectPath (Ok messageFilePaths) st)
  = Some (omap (messageOfFile fs projectPath) messageFilePaths).
Proof.
  simpl. f_equal.
  induction messageFilePaths as [|path paths IH] using rev_ind; [done|].
  rewrite foldl_app, omap_app, <- IH. simpl.
  unfold loadMessageFile, messageOfFile.
  destruct (truthy _); [|by rewrite app_nil_r].
  destruct (readFile fs _); [|by rewrite app_nil_r].
  destruct (parseMessage _ _); [done|by rewrite app_nil_r].
Qed.

(** ** Further properties of the watcher *)

(** X7. A turn of the watcher loop touches no message but the one under the id
    that derives from the file name of the event. *)
Theorem X7_watch_turn_leaves_other_messages fs projectPath filename store otherId :
  (forall name, filename = Some name ->
     truthy (getMessageIdFromPath name) <> Some otherId) ->
  (handleWatchEvent fs projectPath filename store).2 !! otherId = store !! otherId.
Proof.
  intros Hother. unfold handleWatchEvent.
  destruct (truthy filename) as [name|] eqn:Hname; [|done].
  assert (filename = Some name) as ->.
  { destruct filename as [[|]|]; simpl in Hname; congruence. }
  specialize (Hother name eq_refl).
  destruct (truthy (getMessageIdFromPath name)) as [messageId|]; [|done].
  assert (messageId <> otherId) by congruence.
  destruct (readFileContent fs _) as [fileContent|]; [|done].
  destruct (truthy fileContent) as [content|].
  - destruct (parseMessage name content); [|done].
    destruct (encodeMessageJs _); [|done].
    destruct (_ && _); [done|]. simpl. by rewrite lookup_insert_ne.
  - unfold messagesQuery.delete.
    destruct (store !! messageId); [|done]. simpl. by rewrite lookup_delete_ne.
Qed.

(** X8. A turn that counts no mutation leaves the store as it is: so do the
    turns that end fatally, that ignore the event, that skip, that swallow a
    decode error, and that delete a message that is not there. *)
Theorem X8_watch_turn_without_mutation fs projectPath filename store :
  watchMutations (handleWatchEvent fs projectPath filename store).1 = 0 ->
  (handleWatchEvent fs projectPath filename store).2 = store.
Proof.
  unfold handleWatchEvent.
  destruct (truthy filename) as [name|]; [|done].
  destruct (truthy (getMessageIdFromPath name)) as [messageId|]; [|done].
  destruct (readFileContent fs _) as [fileContent|]; [|done].
  destruct (truthy fileContent) as [content|].
  - destruct (parseMessage name content); [|done].
    destruct (encodeMessageJs _); [|done].
    by destruct (_ && _).
  - unfold messagesQuery.delete. by destruct (store !! messageId).
Qed.


(** X10. A file that appears for an id the store does not have: the loop encodes
    the missing message before it looks whether there is one.  When
    [encodeMessage] throws on [undefined] the throw is swallowed with the
    decode errors and the message never enters the store; when it returns,
    the decoded message is upserted and [get] finds it. *)
Theorem X10_watch_new_file fs projectPath name messageId content message store :
  truthy (Some name) = Some name ->
  truthy (getMessageIdFromPath name) = Some messageId ->
  readFile fs (messageFolderPath projectPath +:+ "/" +:+ name) = Ok content ->
  truthy (Some content) = Some content ->
  parseMessage name content = Some message ->
  store !! messageId = None ->
  handleWatchEvent fs projectPath (Some name) store
  = match encodeUndefined with
    | None => (WatchSwallowed, store)
    | Some _ => (WatchUpserted, <[messageId := message]> store)
    end
  /\ (is_Some encodeUndefined ->
      messagesQuery.get messageId (handleWatchEvent fs projectPath (Some name) store).2
      = Some message).
Proof.
  intros Hname Hid Hread Hcontent Hparse Habsent.
  rewrite (handleWatchEvent_content fs projectPath name messageId content)
    by (try done; by apply readFileContent_file).
  rewrite Hparse, Habsent. split; [done|].
  intros [encoded ->]. apply lookup_insert_eq.
Qed.

(** ** Further properties of the tracked messages *)

(** X11. After the effect the tracked ids are the ids of the store. *)
Theorem X11_tracked_ids_are_store_ids projectPath (store : Store) st messageId :
  messageId ∈ trackedMessages (trackMessagesEffect projectPath store st)
  <-> is_Some (messagesQuery.get messageId store).
Proof. apply trackMessagesEffect_tracked. Qed.

Lemma rm_lookup_other (fs : Fs) path p :
  path <> p -> (rm fs path).1 !! p = fs !! p.
Proof.
  intros Hne. unfold rm. destruct (fs !! path) as [[| |]|]; simpl; try done.
  by apply lookup_delete_ne.
Qed.

Lemma untrack_lookup_changed projectPath (l : list string) :
  forall st p,
  disk (foldl (untrackMessage projectPath) st l) !! p <> disk st !! p ->
  exists messageId,
    messageId ∈ l
    /\ p = messageFolderPath projectPath +:+ "/" +:+ getPathFromMessageId messageId.
Proof.
  induction l as [|t l IH]; intros st p; simpl; [done|].
  intros Hchanged.
  destruct (decide (messageFolderPath projectPath +:+ "/" +:+ getPathFromMessageId t = p))
    as [<-|Hne].
  - exists t. split; [by left|done].
  - assert (Hsame : disk (untrackMessage projectPath st t) !! p = disk st !! p).
    { rewrite untrackMessage_disk. by apply rm_lookup_other. }
    rewrite <- Hsame in Hchanged. apply IH in Hchanged as (messageId & Hin & ->).
    exists messageId. split; [by right|done].
Qed.

(** X12. The effect writes nothing and removes nothing but files of messages
    that were tracked and have left the store: a path whose binding changes
    is the file of such a message, and it is unbound afterwards. *)
Theorem X12_tracking_removes_only_left_messages projectPath (store : Store) st p :
  disk (trackMessagesEffect projectPath store st) !! p <> disk st !! p ->
  disk (trackMessagesEffect projectPath store st) !! p = None
  /\ exists messageId,
       messageId ∈ trackedMessages st
       /\ messagesQuery.get messageId store = None
       /\ p = messageFolderPath projectPath +:+ "/" +:+ getPathFromMessageId messageId.
Proof.
  unfold trackMessagesEffect. intros Hchanged. split.
  - edestruct untrack_lookup as [Hnone|Hsame]; [exact Hnone|].
    by rewrite Hsame in Hchanged.
  - apply (untrack_lookup_changed projectPath _ (mkSyncState _ _ _))
      in Hchanged as (messageId & Hin & ->).
    apply list_elem_of_filter in Hin as [Hleft Htracked].
    exists messageId. split; [done|]. split; [|done].
    rewrite includedMessageIds_elem in Hleft. unfold messagesQuery.get.
    destruct (store !! messageId); [|done]. destruct Hleft. by eexists.
Qed.

Lemma trackMessage_all_tracked (store : Store) (ids : list string) :
  forall tracked,
  (forall messageId, messageId ∈ ids -> messageId ∈ tracked) ->
  foldl (trackMessage store) tracked ids = tracked.
Proof.
  induction ids as [|t ids IH]; intros tracked Hall; simpl; [done|].
  unfold trackMessage at 2. rewrite bool_decide_true by (apply Hall; by left).
  apply IH. intros messageId Hin. apply Hall. by right.
Qed.

(** X13. The effect run again on the same store does nothing: no file is
    touched, no id is registered or forgotten. *)
Theorem X13_tracking_twice_is_once projectPath (store : Store) st :
  trackMessagesEffect projectPath store (trackMessagesEffect projectPath store st)
  = trackMessagesEffect projectPath store st.
Proof.
  set (once := trackMessagesEffect projectPath store st).
  assert (Hids : forall messageId,
            messageId ∈ trackedMessages once <-> is_Some (store !! messageId)).
  { intros. apply trackMessagesEffect_tracked. }
  unfold trackMessagesEffect at 1.
  assert (filter (fun t => t ∉ messagesQuery.includedMessageIds store)
            (trackedMessages once) = []) as ->.
  { apply elem_of_nil_inv. intros t [Hleft Ht]%list_elem_of_filter.
    apply Hleft, includedMessageIds_elem, Hids, Ht. }
  simpl. rewrite trackMessage_all_tracked; [by destruct once|].
  intros messageId Hin. by apply Hids, includedMessageIds_elem.
Qed.

(** ** Further properties of the import *)

(** X14. The probe comes back when a candidate is free: if, from the offset it
    starts at, the paths derived from the first [busy] candidates are there
    and the next one is not, the probe returns that next candidate for any
    fuel above [busy]. *)
Theorem X14_probe_returns_first_free_candidate fs importedId (busy : nat) :
  forall fuel currentOffset,
  (forall earlier, earlier < busy ->
     stat fs (getPathFromMessageId (humanIdHash importedId (currentOffset + earlier)))
     = Ok tt) ->
  fs !! getPathFromMessageId (humanIdHash importedId (currentOffset + busy)) = None ->
  busy < fuel ->
  probeMessageId fuel fs importedId currentOffset
  = ProbeFound (humanIdHash importedId (currentOffset + busy)).
Proof.
  induction busy as [|busy IH]; intros fuel currentOffset Hbusy Hfree Hfuel;
    (destruct fuel as [|fuel]; [lia|]); simpl.
  - rewrite Nat.add_0_r in *. unfold stat. rewrite Hfree. reflexivity.
  - rewrite <- (Nat.add_0_r currentOffset) at 1. rewrite (Hbusy 0) by lia.
    replace (currentOffset + S busy) with (S currentOffset + busy) in * by lia.
    apply IH; [|done|lia].
    intros earlier Hearlier.
    replace (S currentOffset + earlier) with (currentOffset + S earlier) by lia.
    apply Hbusy. lia.
Qed.

(** X15. The loop has no bound of its own: while every candidate's path is
    there, the probe is still turning whatever fuel it is given. *)
Theorem X15_probe_runs_on_while_candidates_exist fs importedId :
  (forall offset,
     stat fs (getPathFromMessageId (humanIdHash importedId offset)) = Ok tt) ->
  forall fuel currentOffset,
  probeMessageId fuel fs importedId currentOffset = ProbeRunsOn.
Proof.
  intros Hbusy fuel. induction fuel as [|fuel IH]; intros currentOffset; simpl; [done|].
  by rewrite Hbusy.
Qed.

(** X16. An id that the probe returns is the first candidate, from the offset it
    starts at, whose derived path [stat] reports missing: every candidate
    before it is there. *)
Theorem X16_probe_found_is_first_free fuel fs importedId currentOffset messsageId :
  probeMessageId fuel fs importedId currentOffset = ProbeFound messsageId ->
  exists offset,
    messsageId = humanIdHash importedId offset
    /\ currentOffset <= offset < currentOffset + fuel
    /\ stat fs (getPathFromMessageId messsageId) = Throw (FsError ENOENT)
    /\ forall earlier, currentOffset <= earlier < offset ->
         stat fs (getPathFromMessageId (humanIdHash importedId earlier)) = Ok tt.
Proof.
  revert currentOffset.
  induction fuel as [|fuel IH]; intros currentOffset; simpl; [done|].
  destruct (stat fs (getPathFromMessageId (humanIdHash importedId currentOffset)))
    as [[]|e] eqn:Hstat.
  - intros (offset & -> & Hle & Hfree & Hbusy)%IH.
    exists offset. repeat split; [lia|lia|done|].
    intros earlier Hrange. destruct (decide (earlier = currentOffset)) as [->|Hne]; [done|].
    apply Hbusy. lia.
  - destruct e as [| |code| | | | |]; simpl; try done.
    destruct (String.eqb code ENOENT) eqn:Hcode; [|done].
    apply String.eqb_eq in Hcode as ->. intros [= <-].
    exists currentOffset. repeat split; [lia|lia|done|]. intros earlier Hrange. lia.
Qed.

Lemma importMessage_keyed fuel fs pid m (store : Store) changed store' :
  storeKeyedById store ->
  importMessage fuel fs pid m store = StepDone changed store' ->
  storeKeyedById store'.
Proof. intros Hwf Hstep. by destruct (importMessage_settles _ _ _ _ _ _ _ Hwf Hstep). Qed.

(** What a step of the import does to a stored message: it stays under its
    id unless its alias for the plugin is the id of the imported message;
    no message is ever removed. *)
Lemma importMessage_frame fuel fs pid m (store : Store) changed store' k x :
  storeKeyedById store ->
  importMessage fuel fs pid m store = StepDone changed store' ->
  store !! k = Some x ->
  is_Some (store' !! k)
  /\ (alias x !! pid <> Some (id m) -> store' !! k = Some x).
Proof.
  intros Hwf Hstep Hk. unfold importMessage in Hstep.
  destruct (currentMessagesFor pid (id m) store) as [|c [|c' rest]] eqn:Hcm; [| |done].
  - destruct (probeMessageId fuel fs (id m) 0) as [h| |]; [|done..].
    unfold messagesQuery.create in Hstep. simpl in Hstep.
    destruct (store !! h) as [y|] eqn:Hh; injection Hstep as <- <-; [by eauto|].
    assert (h <> k) by congruence.
    rewrite lookup_insert_ne by done. eauto.
  - assert (Hc : c ∈ currentMessagesFor pid (id m) store) by (rewrite Hcm; constructor).
    destruct (currentMessagesFor_at _ _ _ _ Hwf Hc) as [Hat Ha].
    destruct (String.eqb _ _); [injection Hstep as <- <-; by eauto|].
    unfold messagesQuery.update in Hstep. simpl in Hstep. rewrite Hat in Hstep.
    injection Hstep as <- <-.
    destruct (decide (id c = k)) as [<-|Hne].
    + rewrite lookup_insert_eq. split; [by eexists|].
      intros Hother. congruence.
    + rewrite lookup_insert_ne by done. eauto.
Qed.

Lemma importLoop_frame fuel fs pid (l : list Message) :
  forall (store : Store) n k x,
  storeKeyedById store ->
  store !! k = Some x ->
  let run := importLoop fuel fs pid l store n in
  storeKeyedById (importStore run)
  /\ is_Some (importStore run !! k)
  /\ ((forall m, m ∈ l -> alias x !! pid <> Some (id m)) -> importStore run !! k = Some x).
Proof.
  induction l as [|m l IH]; intros store n k x Hwf Hk; simpl; [by eauto|].
  destruct (importMessage fuel fs pid m store) as [changed store1| |] eqn:Hstep;
    simpl; [|by eauto..].
  pose proof (importMessage_keyed _ _ _ _ _ _ _ Hwf Hstep) as Hwf1.
  destruct (importMessage_frame _ _ _ _ _ _ _ k x Hwf Hstep Hk) as [[x1 Hk1] Hsame].
  destruct (IH store1 (if changed then S n else n) k x1 Hwf1 Hk1) as (Hwf' & Hsome & Hkeep).
  split; [done|]. split; [done|].
  intros Hother.
  assert (x1 = x) as ->.
  { rewrite Hsame in Hk1 by (apply Hother; by left). congruence. }
  apply Hkeep. intros m0 Hm0. apply Hother. by right.
Qed.

(** X17. The import, however it ends, keeps every stored message under its id
    or replaces it there, so no message is lost; a message whose alias for
    the plugin is the id of no imported message is left exactly as it is;
    and the store still files each message under its id. *)
Theorem X17_import_keeps_other_messages fuel fs pid (importedMessages : list Message)
    (store : Store) k x :
  storeKeyedById store ->
  store !! k = Some x ->
  let run := importMessages fuel fs pid importedMessages store in
  storeKeyedById (importStore run)
  /\ is_Some (importStore run !! k)
  /\ ((forall m, m ∈ importedMessages -> alias x !! pid <> Some (id m)) ->
      importStore run !! k = Some x).
Proof.
  intros Hwf Hk run.
  destruct (importLoop_frame fuel fs pid (sortById importedMessages) store 0 k x Hwf Hk)
    as (Hwf' & Hsome & Hkeep).
  split; [done|]. split; [done|].
  intros Hother. apply Hkeep. intros m Hm. apply Hother.
  by rewrite <- (sortById_Permutation importedMessages).
Qed.

Lemma importLoop_mutations fuel fs pid (l : list Message) :
  forall (store : Store) n,
  let run := importLoop fuel fs pid l store n in
  n <= importMutations run <= n + length l
  /\ (importMutations run = n -> importStore run = store).
Proof.
  induction l as [|m l IH]; intros store n; simpl; [split; [lia|done]|].
  destruct (importMessage fuel fs pid m store) as [changed store1| |] eqn:Hstep;
    simpl; [|split; [lia|done]..].
  destruct (IH store1 (if changed then S n else n)) as [Hrange Hsame].
  assert (Hquiet : changed = false -> store1 = store).
  { intros ->. unfold importMessage in Hstep.
    unfold messagesQuery.create, messagesQuery.update in Hstep.
    repeat case_match; simplify_eq; done. }
  destruct changed; [split; [lia|intros; lia]|].
  split; [lia|]. intros Hn. rewrite Hsame by done. by apply Hquiet.
Qed.

(** X18. The import makes at most one store mutation for each imported message,
    and a run that counts none leaves the store as it found it. *)
Theorem X18_import_mutations_bounded fuel fs pid (importedMessages : list Message)
    (store : Store) :
  let run := importMessages fuel fs pid importedMessages store in
  importMutations run <= length importedMessages
  /\ (importMutations run = 0 -> importStore run = store).
Proof.
  intros run.
  destruct (importLoop_mutations fuel fs pid (sortById importedMessages) store 0)
    as [Hrange Hsame].
  split; [|done].
  rewrite (Permutation_length (sortById_Permutation importedMessages)) in Hrange.
  unfold run, importMessages. cbv zeta in Hrange. lia.
Qed.

(** X19. A message with no alias match is created under the id the probe finds,
    when that id is free in the store, with the two alias entries set to
    the imported id and the imported variants; it is then the one match of
    the imported id. *)
Theorem X19_import_creates_new_message fuel fs pid (m : Message) (store : Store) messsageId :
  currentMessagesFor pid (id m) store = [] ->
  probeMessageId fuel fs (id m) 0 = ProbeFound messsageId ->
  store !! messsageId = None ->
  let created := mkMessage messsageId
                   {[ pid := id m; "library.inlang.paraglideJs" := id m ]} (variants m) in
  importMessage fuel fs pid m store = StepDone true (<[messsageId := created]> store)
  /\ currentMessagesFor pid (id m) (<[messsageId := created]> store) = [created].
Proof.
  intros Hnone Hprobe Hfree created.
  assert (Hcreated : importedAs pid m messsageId = created).
  { unfold importedAs, created, importAlias. f_equal.
    apply map_eq. intros key.
    rewrite !lookup_insert, lookup_singleton, lookup_empty.
    by repeat case_decide. }
  split.
  - unfold importMessage. rewrite Hnone, Hprobe.
    unfold messagesQuery.create. simpl. by rewrite Hfree, Hcreated.
  - apply Permutation_singleton_r.
    rewrite currentMessagesFor_insert_fresh, Hnone by done.
    unfold matchOf. rewrite <- Hcreated. simpl.
    by rewrite importAlias_lookup, decide_True.
Qed.

(** ** Further properties of [loadProject] *)

Lemma string_length_append (a b : string) :
  String.length (a +:+ b) = String.length a + String.length b.
Proof.
  induction a as [|c a IH]; [done|].
  change (String c a +:+ b) with (String c (a +:+ b)). simpl. by rewrite IH.
Qed.


Lemma string_substring_append (a b : string) (k m : nat) :
  String.substring (String.length a + k) m (a +:+ b) = String.substring k m b.
Proof.
  induction a as [|c a IH]; [done|].
  change (String c a +:+ b) with (String c (a +:+ b)). simpl. apply IH.
Qed.

Lemma string_substring_all (s : string) :
  String.substring 0 (String.length s) s = s.
Proof. induction s as [|c s IH]; [done|]. simpl. by rewrite IH. Qed.






End Loader.

(** * Runs of the loader *)

(** ** Settings *)

(** C1. [setSettings] commits a value whose source language tag is not
    among its language tags.  The value given is in the outdated shape; its
    own tags pass the membership test, the validator accepts the migrated
    value, and the migrated value, with another source tag, is what is set.
    The same value in the settings file is not reported either:
    [parseSettings] returns the migrated value, [setSettings] refuses it,
    the settings effect drops that result, and [loadProject] waits for an
    initialisation that never settles. *)
Theorem C1_setSettings_commits_unchecked_migration :
  setSettings Demo.migrateIfOutdated Demo.Check Demo.Errors emptySettings
    Demo.outdatedSettings
  = (ResultData, mkSettingsState (Some Demo.migratedSettings) true [])
  /\ Demo.Check Demo.migratedSettings = true
  /\ includes (getProperty "languageTags" Demo.migratedSettings)
       (getProperty "sourceLanguageTag" Demo.migratedSettings) = Ok false
  /\ (let fs : Fs :=
        {[ Demo.projectPath +:+ "/settings.json" := FsFile Demo.outdatedSettingsText ]} in
      settingsEffect Demo.migrateIfOutdated Demo.Check Demo.Errors Demo.JSON_parse
        fs Demo.projectPath emptySettings
      = (InitPending, emptySettings)
      /\ loadProject Demo.migrateIfOutdated Demo.Check Demo.Errors Demo.JSON_parse
           Demo.parseMessage Demo.encodeMessage Demo.getMessageIdFromPath
           Demo.getPathFromMessageId Demo.localeCompare Demo.humanIdHash
           Demo.isAbsolutePath Demo.resolveModules 1 fs Demo.projectPath (Ok [])
         = ProjectPending).
Proof.
  assert (Hparse : parseSettings Demo.migrateIfOutdated Demo.Check Demo.Errors
                     Demo.outdatedSettings = Ok Demo.migratedSettings) by reflexivity.
  split; [|split; [|split]].
  - unfold setSettings. by rewrite Hparse.
  - reflexivity.
  - reflexivity.
  - cbv zeta. split; by vm_compute.
Qed.

(** ** Fresh ids *)

Lemma length_append (a b : string) :
  String.length (a +:+ b) = String.length a + String.length b.
Proof.
  induction a as [|c a IH]; [done|].
  change (String c a +:+ b) with (String c (a +:+ b)). simpl. by rewrite IH.
Qed.

(** A path below the message folder is longer than the path it ends in. *)
Lemma messageFilePath_longer (projectPath path : string) :
  path <> messageFolderPath projectPath +:+ "/" +:+ path.
Proof.
  intros Heq. apply (f_equal String.length) in Heq.
  rewrite !length_append in Heq. simpl in Heq. lia.
Qed.

(** C2. The probe asks for the path derived from the candidate id as it
    is, and message files stand under the message folder.  On a disk that
    holds a message file for the first candidate, and nothing else, the
    probe takes the first candidate, and the import creates the message
    under the id of the file on the disk. *)
Theorem C2_probe_overlooks_message_files (encodeMessage : Message -> string)
    (getPathFromMessageId : string -> string) (localeCompare : string -> string -> Z)
    (humanIdHash : string -> nat -> string)
    (fuel : nat) (projectPath loadPluginId content : string) (importedMessage : Message) :
  let messsageId := humanIdHash (id importedMessage) 0 in
  let messageFilePath :=
    messageFolderPath projectPath +:+ "/" +:+ getPathFromMessageId messsageId in
  let fs : Fs := {[ messageFilePath := FsFile content ]} in
  readFile fs messageFilePath = Ok content
  /\ probeMessageId getPathFromMessageId humanIdHash (S fuel) fs (id importedMessage) 0
     = ProbeFound messsageId
  /\ importMessages encodeMessage getPathFromMessageId localeCompare humanIdHash
       (S fuel) fs loadPluginId [importedMessage] ∅
     = mkImportRun ImportDone
         {[ messsageId := importedAs loadPluginId importedMessage messsageId ]} 1.
Proof.
  intros messsageId messageFilePath fs.
  assert (Hfree : fs !! getPathFromMessageId messsageId = None).
  { apply lookup_singleton_ne. intros Heq. symmetry in Heq.
    by apply messageFilePath_longer in Heq. }
  assert (Hprobe : probeMessageId getPathFromMessageId humanIdHash (S fuel) fs
                     (id importedMessage) 0 = ProbeFound messsageId).
  { simpl. unfold stat. fold messsageId. by rewrite Hfree. }
  split; [|split; [done|]].
  - unfold readFile, fs. by rewrite lookup_singleton_eq.
  - assert (Hnone : currentMessagesFor loadPluginId (id importedMessage) ∅ = []).
    { unfold currentMessagesFor, messagesQuery.getAll. by rewrite map_to_list_empty. }
    unfold importMessages.
    change (sortById localeCompare [importedMessage]) with [importedMessage].
    unfold importLoop, importMessage. rewrite Hnone, Hprobe.
    unfold messagesQuery.create.
    change (id (importedAs loadPluginId importedMessage messsageId)) with messsageId.
    by rewrite lookup_empty, insert_empty.
Qed.

(** ** Import *)

Abbreviation demoImport :=
  (importMessages Demo.encodeMessage Demo.getPathFromMessageId Demo.localeCompare
     Demo.humanIdHash).
Abbreviation demoImportLoop :=
  (importLoop Demo.encodeMessage Demo.getPathFromMessageId Demo.humanIdHash).

(** C7. The import of a message with one alias match keeps the id of the
    stored message and writes only when the encodings differ, and the alias
    it writes is the pair of entries built from the imported id, not the
    alias of the stored message: here the imported variants are the stored
    ones, the store is updated all the same, and the entry of the other
    module is gone. *)
Theorem C7_update_in_place_rebuilds_alias :
  currentMessagesFor Demo.pluginId "greeting" {[ "calm_owl" := Demo.storedGreeting ]}
  = [Demo.storedGreeting]
  /\ variants Demo.greeting = variants Demo.storedGreeting
  /\ demoImport 1 ∅ Demo.pluginId [Demo.greeting] {[ "calm_owl" := Demo.storedGreeting ]}
     = mkImportRun ImportDone
         {[ "calm_owl" := mkMessage "calm_owl" (importAlias Demo.pluginId "greeting")
                            [mkVariant "en" "Welcome"] ]} 1
  /\ alias Demo.storedGreeting !! "plugin.y" = Some "salute"
  /\ importAlias Demo.pluginId "greeting" !! "plugin.y" = None.
Proof. repeat split; by vm_compute. Qed.




(** ** The watcher *)

Abbreviation demoWatch :=
  (handleWatchEvent Demo.parseMessage Demo.encodeMessage None Demo.getMessageIdFromPath).

(** C10. A message file that is there and reads as the empty string is
    taken for a deleted one: the turn of the loop deletes the message under
    the id of the file, as it does when the file is gone, and whatever the
    codec is, for the codec is not asked. *)
Theorem C10_empty_file_is_a_deleted_file
    (parseMessage parseMessage' : string -> string -> option Message)
    (encodeMessage encodeMessage' : Message -> string)
    (encodeUndefined encodeUndefined' : option string)
    (getMessageIdFromPath : string -> option string)
    (fs : Fs) (projectPath name messageId : string) (store : Store) :
  truthy (Some name) = Some name ->
  truthy (getMessageIdFromPath name) = Some messageId ->
  fs !! (messageFolderPath projectPath +:+ "/" +:+ name) = Some (FsFile EmptyString) ->
  let turn :=
    handleWatchEvent parseMessage encodeMessage encodeUndefined getMessageIdFromPath
      fs projectPath (Some name) store in
  turn = (WatchDeleted (bool_decide (is_Some (store !! messageId))), delete messageId store)
  /\ messagesQuery.get messageId turn.2 = None
  /\ turn = handleWatchEvent parseMessage encodeMessage encodeUndefined getMessageIdFromPath
              (delete (messageFolderPath projectPath +:+ "/" +:+ name) fs)
              projectPath (Some name) store
  /\ turn = handleWatchEvent parseMessage' encodeMessage' encodeUndefined'
              getMessageIdFromPath fs projectPath (Some name) store.
Proof.
  intros Hname Hid Hfile turn.
  assert (Hempty : readFileContent fs (messageFolderPath projectPath +:+ "/" +:+ name)
                   = Ok (Some EmptyString)).
  { apply readFileContent_file. unfold readFile. by rewrite Hfile. }
  assert (Hturn : forall parse encode encodeAbsent,
            handleWatchEvent parse encode encodeAbsent getMessageIdFromPath
              fs projectPath (Some name) store
            = (WatchDeleted (bool_decide (is_Some (store !! messageId))),
               delete messageId store)).
  { intros. by apply (handleWatchEvent_falsy _ _ _ _ _ _ _ _ (Some EmptyString)). }
  unfold turn. rewrite !Hturn. simpl. repeat split.
  - apply lookup_delete_eq.
  - symmetry. apply (handleWatchEvent_falsy _ _ _ _ _ _ _ _ None); try done.
    apply readFileContent_missing, lookup_delete_eq.
Qed.

Lemma C10_empty_file_is_a_deleted_file_witness :
  let fs : Fs := {[ Demo.helloFile := FsFile EmptyString ]} in
  let store : Store := {[ "hello" := Demo.hello ]} in
  let turn := demoWatch fs Demo.projectPath (Some "hello.json") store in
  turn = (WatchDeleted (bool_decide (is_Some (store !! "hello"))), delete "hello" store)
  /\ messagesQuery.get "hello" turn.2 = None
  /\ turn = demoWatch (delete Demo.helloFile fs) Demo.projectPath (Some "hello.json") store
  /\ turn = handleWatchEvent (fun _ _ => None) (fun _ => EmptyString) (Some "absent")
              Demo.getMessageIdFromPath fs Demo.projectPath (Some "hello.json") store.
Proof.
  apply (C10_empty_file_is_a_deleted_file Demo.parseMessage (fun _ _ => None)
           Demo.encodeMessage (fun _ => EmptyString) None (Some "absent")
           Demo.getMessageIdFromPath {[ Demo.helloFile := FsFile EmptyString ]}
           Demo.projectPath "hello.json" "hello" {[ "hello" := Demo.hello ]});
    by vm_compute.
Defined.

(** The file of [hello] written with a blank in front: it decodes to
    [hello], and is not the encoding of [hello].  Both turns upsert. *)
Lemma C4_blank_in_front_counterexample :
  let content := " " +:+ Demo.encodeMessage Demo.hello in
  let fs : Fs := {[ Demo.helloFile := FsFile content ]} in
  let store : Store := {[ "hello" := Demo.helloBefore ]} in
  let first := demoWatch fs Demo.projectPath (Some "hello.json") store in
  let second := demoWatch fs Demo.projectPath (Some "hello.json") first.2 in
  Demo.parseMessage "hello.json" content = Some Demo.hello
  /\ first = (WatchUpserted, {[ "hello" := Demo.hello ]})
  /\ second = (WatchUpserted, {[ "hello" := Demo.hello ]})
  /\ watchMutations first.1 + watchMutations second.1 = 2.
Proof. repeat split; by vm_compute. Qed.

Lemma C4_same_event_twice_witness :
  let fs : Fs := {[ Demo.helloFile := FsFile (Demo.encodeMessage Demo.hello) ]} in
  let store : Store := {[ "hello" := Demo.helloBefore ]} in
  let first := demoWatch fs Demo.projectPath (Some "hello.json") store in
  let second := demoWatch fs Demo.projectPath (Some "hello.json") first.2 in
  watchMutations first.1 + watchMutations second.1 <= 1
  /\ (first.1 = WatchUpserted -> second.1 = WatchSkipped /\ second.2 = first.2).
Proof.
  apply (C4_same_event_twice Demo.parseMessage Demo.encodeMessage None
           Demo.getMessageIdFromPath
           {[ Demo.helloFile := FsFile (Demo.encodeMessage Demo.hello) ]}
           Demo.projectPath (Some "hello.json") {[ "hello" := Demo.helloBefore ]}).
  intros name content message [= <-] Hread Hparse.
  vm_compute in Hread. injection Hread as <-.
  vm_compute in Hparse. injection Hparse as <-.
  reflexivity.
Defined.


(** ** The first load and the settings file *)

Abbreviation demoLoadProject :=
  (loadProject Demo.migrateIfOutdated Demo.Check Demo.Errors Demo.JSON_parse
     Demo.parseMessage Demo.encodeMessage Demo.getMessageIdFromPath
     Demo.getPathFromMessageId Demo.localeCompare Demo.humanIdHash
     Demo.isAbsolutePath Demo.resolveModules).

(** The load of [Demo.brokenProject] keeps no record of the file that does not
    decode: [messageParseErrors] is empty, and so is the [errors] list of
    the project that [loadProject] returns. *)
Lemma C6_nothing_recorded_counterexample :
  let loaded :=
    loadAndSetMessages Demo.parseMessage Demo.getMessageIdFromPath Demo.brokenProject
      Demo.projectPath (Ok ["/broken.json"; "/hello.json"]) emptyLoadState in
  Demo.getMessageIdFromPath "/broken.json" = Some "broken"
  /\ readFile Demo.brokenProject (messageFolderPath Demo.projectPath +:+ "/broken.json") = Ok "{"
  /\ Demo.parseMessage "/broken.json" "{" = None
  /\ messages loaded = Some [Demo.hello]
  /\ initialized loaded = InitComplete
  /\ messageParseErrors loaded = ∅
  /\ demoLoadProject 1 Demo.brokenProject Demo.projectPath (Ok ["/broken.json"; "/hello.json"])
     = ProjectReturned
         (mkInlangProject [] (Some Demo.currentSettings) {[ "hello" := Demo.hello ]}).
Proof. repeat split; by vm_compute. Qed.

Lemma C6_undecodable_file_is_passed_over_witness :
  let loaded :=
    loadAndSetMessages Demo.parseMessage Demo.getMessageIdFromPath Demo.brokenProject
      Demo.projectPath (Ok ([] ++ "/broken.json" :: ["/hello.json"])) emptyLoadState in
  messages loaded
  = Some (foldl (loadMessageFile Demo.parseMessage Demo.getMessageIdFromPath
                   Demo.brokenProject Demo.projectPath) [] []
          ++ foldl (loadMessageFile Demo.parseMessage Demo.getMessageIdFromPath
                      Demo.brokenProject Demo.projectPath) [] ["/hello.json"])
  /\ initialized loaded = InitComplete
  /\ messageParseErrors loaded = messageParseErrors emptyLoadState
  /\ loaded = loadAndSetMessages Demo.parseMessage Demo.getMessageIdFromPath Demo.brokenProject
                Demo.projectPath (Ok ([] ++ ["/hello.json"])) emptyLoadState
  /\ demoLoadProject 1 Demo.brokenProject Demo.projectPath (Ok ([] ++ "/broken.json" :: ["/hello.json"]))
     = demoLoadProject 1 Demo.brokenProject Demo.projectPath (Ok ([] ++ ["/hello.json"])).
Proof.
  apply (C6_undecodable_file_is_passed_over Demo.migrateIfOutdated Demo.Check Demo.Errors
           Demo.JSON_parse Demo.parseMessage Demo.encodeMessage Demo.getMessageIdFromPath
           Demo.getPathFromMessageId Demo.localeCompare Demo.humanIdHash
           Demo.isAbsolutePath Demo.resolveModules 1 Demo.brokenProject Demo.projectPath
           [] ["/hello.json"] "/broken.json" "{" emptyLoadState);
    by vm_compute.
Defined.

(** A settings file that is there and cannot be read gives the not-found
    error; and a project without a settings file is returned, the error in
    its [errors], not refused. *)
Lemma C8_unreadable_settings_counterexample :
  let settingsFilePath := Demo.projectPath +:+ "/settings.json" in
  let fs : Fs := {[ settingsFilePath := FsFault "EACCES" ]} in
  fs !! settingsFilePath = Some (FsFault "EACCES")
  /\ loadSettings Demo.migrateIfOutdated Demo.Check Demo.Errors Demo.JSON_parse
       fs settingsFilePath
     = Throw (ProjectSettingsFileNotFoundError (FsError "EACCES") settingsFilePath)
  /\ demoLoadProject 1 ∅ Demo.projectPath (Ok [])
     = ProjectReturned
         (mkInlangProject
            [ProjectSettingsFileNotFoundError (FsError ENOENT) settingsFilePath] None ∅).
Proof. repeat split; by vm_compute. Qed.

(** * Folders for the runs of the directory walks *)

Module DemoFolders.

(** The message folder of [Demo.projectPath]: two files, one of them in a
    subfolder. *)
Definition messageFolder : string := messageFolderPath Demo.projectPath.

(** A disk with a project at its root, one in [packages], and one inside
    [node_modules].  The search from [/] asks for [//packages]: the disk
    answers for the path with the one slash and with the two. *)
Definition readdir (path : string) : Result (list string) :=
  if String.eqb path messageFolder then Ok ["a.json"; "sub"]
  else if String.eqb path (messageFolder +:+ "/sub") then Ok ["b.json"]
  else if String.eqb path "/" then Ok ["node_modules"; "app.inlang"; "packages"; "notes.md"]
  else if String.eqb path "//packages" then Ok ["web.inlang"]
  else if String.eqb path "//node_modules" then Ok ["dep.inlang"]
  else Throw (FsError ENOENT).

Definition isDirectory (path : string) : Result bool :=
  Ok (negb (String.eqb path (messageFolder +:+ "/a.json")
            || String.eqb path (messageFolder +:+ "/sub/b.json")
            || String.eqb path "//notes.md")).

End DemoFolders.

(** * Directory walks *)

(** ** Paths *)

(** [s.endsWith(suffix)] *)
Definition endsWith (s suffix : string) : bool :=
  (String.length suffix <=? String.length s)%nat
  && String.eqb
       (String.substring (String.length s - String.length suffix) (String.length suffix) s)
       suffix.

(** [s.replace(/\/\//g, "/")]: from the left, each pair of slashes becomes
    one slash, and the scan goes on behind the pair. *)
Fixpoint collapseSlashPairs (s : string) : string :=
  match s with
  | EmptyString => EmptyString
  | String c rest =>
      match rest with
      | String c' rest' =>
          if Ascii.eqb c (Ascii.ascii_of_nat 47) && Ascii.eqb c' (Ascii.ascii_of_nat 47)
          then String c (collapseSlashPairs rest')
          else String c (collapseSlashPairs rest)
      | EmptyString => String c EmptyString
      end
  end.

(** A string without a slash. *)
Fixpoint slashFree (s : string) : bool :=
  match s with
  | EmptyString => true
  | String c rest => negb (Ascii.eqb c (Ascii.ascii_of_nat 47)) && slashFree rest
  end.

Section Walks.

#[local] Set Default Proof Using "Type".

(** [readdir(path)] and [(await stat(path)).isDirectory()] of the file
    system that is walked. *)
Variable readdir : string -> Result (list string).
Variable isDirectory : string -> Result bool.

Inductive Walk : Type :=
| WalkDone (filePaths : list string)
| WalkThrow (e : Exception)
| WalkRunsOn.

(** One turn of the loop over [paths] in [readFilesFromFolderRecursive];
    [recurse] is the call of the function on a subfolder. *)
Definition walkEntry (recurse : string -> Walk) (rootPath pathToRead : string)
    (walked : Walk) (path : string) : Walk :=
  match walked with
  | WalkDone filePaths =>
      match isDirectory (rootPath +:+ pathToRead +:+ "/" +:+ path) with
      | Throw e => WalkThrow e
      | Ok true =>
          match recurse (pathToRead +:+ "/" +:+ path) with
          | WalkDone subfolderPaths => WalkDone (filePaths ++ subfolderPaths)
          | stopped => stopped
          end
      | Ok false => WalkDone (filePaths ++ [pathToRead +:+ "/" +:+ path])
      end
  | stopped => stopped
  end.

(** [readFilesFromFolderRecursive].  [fuel] bounds the depth of the
    recursion, which the function does not bound. *)
Fixpoint readFilesFromFolderRecursive (fuel : nat) (rootPath pathToRead : string) : Walk :=
  match fuel with
  | O => WalkRunsOn
  | S fuel' =>
      match readdir (rootPath +:+ pathToRead) with
      | Throw e => WalkThrow e
      | Ok paths =>
          foldl (walkEntry (readFilesFromFolderRecursive fuel' rootPath) rootPath pathToRead)
            (WalkDone []) paths
      end
  end.

(** [recursionLimit] of [listProjects]. *)
Definition recursionLimit : nat := 5.

(** One turn of the loop over [files] in [searchDir]; [recurse] is the call
    of [searchDir] on a directory, one level down. *)
Definition searchEntry (recurse : string -> list string -> Result (list string))
    (path : string) (searched : Result (list string)) (file : string)
    : Result (list string) :=
  match searched with
  | Ok found =>
      let filePath := path +:+ "/" +:+ file in
      match isDirectory filePath with
      | Throw e => Throw e
      | Ok true =>
          if String.eqb file "node_modules" then Ok found
          else if endsWith file ".inlang" then Ok (found ++ [filePath])
          else recurse filePath found
      | Ok false => Ok found
      end
  | Throw e => Throw e
  end.

(** [searchDir] of [listProjects], with the [projects] found so far.
    [levels] is the number of depths still to be searched,
    [recursionLimit + 1 - depth]: at none the depth is above the limit and
    the search returns. *)
Fixpoint searchDir (levels : nat) (path : string) (projects : list string)
    : Result (list string) :=
  match levels with
  | O => Ok projects
  | S levels' =>
      match readdir path with
      | Throw e => Throw e
      | Ok files => foldl (searchEntry (searchDir levels') path) (Ok projects) files
      end
  end.

(** [listProjects(nodeishFs, from)]: the project paths, double slashes
    replaced. *)
Definition listProjects (from : string) : Result (list string) :=
  match searchDir (S recursionLimit) from [] with
  | Ok projects => Ok (collapseSlashPairs <$> projects)
  | Throw e => Throw e
  end.

(** A project directory that the search of [levels] depths from [path]
    reaches: the directories on the way to it are neither [node_modules] nor
    projects themselves. *)
Inductive foundBelow : nat -> string -> string -> Prop :=
| found_here levels path files file :
    readdir path = Ok files ->
    file ∈ files ->
    isDirectory (path +:+ "/" +:+ file) = Ok true ->
    String.eqb file "node_modules" = false ->
    endsWith file ".inlang" = true ->
    foundBelow (S levels) path (path +:+ "/" +:+ file)
| found_deeper levels path files file project :
    readdir path = Ok files ->
    file ∈ files ->
    isDirectory (path +:+ "/" +:+ file) = Ok true ->
    String.eqb file "node_modules" = false ->
    endsWith file ".inlang" = false ->
    foundBelow levels (path +:+ "/" +:+ file) project ->
    foundBelow (S levels) path project.

(** ** Strings *)

Lemma string_append_assoc (a b c : string) : (a +:+ b) +:+ c = a +:+ (b +:+ c).
Proof.
  induction a as [|x a IH]; [done|].
  change (String x a +:+ b) with (String x (a +:+ b)).
  change (String x (a +:+ b) +:+ c) with (String x ((a +:+ b) +:+ c)).
  change (String x a +:+ (b +:+ c)) with (String x (a +:+ (b +:+ c))).
  by rewrite IH.
Qed.

Lemma string_substring_split (k : nat) :
  forall s : string,
  k <= String.length s ->
  s = String.substring 0 k s +:+ String.substring k (String.length s - k) s.
Proof.
  induction k as [|k IH]; intros s Hk.
  - rewrite Nat.sub_0_r, string_substring_all. by destruct s.
  - destruct s as [|c s]; simpl in Hk; [lia|].
    simpl String.substring. simpl String.length.
    change (String c (String.substring 0 k s) +:+ ?b)
      with (String c (String.substring 0 k s +:+ b)).
    f_equal. apply IH. lia.
Qed.

(** [endsWith] holds of the strings that have the suffix at their end. *)
Lemma endsWith_spec (s suffix : string) :
  endsWith s suffix = true <-> exists front, s = front +:+ suffix.
Proof.
  unfold endsWith. rewrite andb_true_iff, Nat.leb_le, String.eqb_eq. split.
  - intros [Hle Hsuffix].
    exists (String.substring 0 (String.length s - String.length suffix) s).
    pose proof (string_substring_split (String.length s - String.length suffix) s
                  ltac:(lia)) as Hsplit.
    replace (String.length s - (String.length s - String.length suffix))
      with (String.length suffix) in Hsplit by lia.
    by rewrite Hsuffix in Hsplit.
  - intros [front ->]. rewrite string_length_append. split; [lia|].
    replace (String.length front + String.length suffix - String.length suffix)
      with (String.length front + 0) by lia.
    by rewrite string_substring_append, string_substring_all.
Qed.

Lemma collapseSlashPairs_slashFree (s : string) :
  slashFree s = true -> collapseSlashPairs s = s.
Proof.
  induction s as [|c s IH]; [done|]. simpl. intros [Hc Hs]%andb_true_iff.
  apply negb_true_iff in Hc. rewrite Hc. simpl.
  destruct s as [|c' s]; [done|]. by rewrite IH.
Qed.

Lemma collapseSlashPairs_pair (c c' : Ascii.ascii) (rest : string) :
  collapseSlashPairs (String c (String c' rest)) =
  if Ascii.eqb c (Ascii.ascii_of_nat 47) && Ascii.eqb c' (Ascii.ascii_of_nat 47)
  then String c (collapseSlashPairs rest)
  else String c (collapseSlashPairs (String c' rest)).
Proof. reflexivity. Qed.

(** Replacing the double slashes leaves a suffix without a slash in place. *)
Lemma collapseSlashPairs_suffix (suffix : string) :
  slashFree suffix = true ->
  forall (n : nat) (s : string),
  String.length s < n ->
  exists front, collapseSlashPairs (s +:+ suffix) = front +:+ suffix.
Proof.
  intros Hfree. induction n as [|n IH]; intros s Hn; [lia|].
  destruct s as [|c s].
  - exists EmptyString. by apply collapseSlashPairs_slashFree.
  - change (String c s +:+ suffix) with (String c (s +:+ suffix)).
    destruct s as [|c' s].
    + change (EmptyString +:+ suffix) with suffix.
      destruct suffix as [|c0 suffix]; [by exists (String c EmptyString)|].
      exists (String c EmptyString).
      change (String c EmptyString +:+ String c0 suffix) with (String c (String c0 suffix)).
      rewrite collapseSlashPairs_pair, (collapseSlashPairs_slashFree _ Hfree).
      simpl in Hfree. apply andb_true_iff in Hfree as [Hc0 _].
      apply negb_true_iff in Hc0. by rewrite Hc0, andb_false_r.
    + change (String c' s +:+ suffix) with (String c' (s +:+ suffix)).
      rewrite collapseSlashPairs_pair.
      destruct (Ascii.eqb c (Ascii.ascii_of_nat 47) && Ascii.eqb c' (Ascii.ascii_of_nat 47)).
      * destruct (IH s) as [front Hfront]; [cbn [String.length] in Hn |- *; lia|].
        exists (String c front). by rewrite Hfront.
      * destruct (IH (String c' s)) as [front Hfront]; [cbn [String.length] in Hn |- *; lia|].
        exists (String c front).
        change (String c' s +:+ suffix) with (String c' (s +:+ suffix)) in Hfront.
        by rewrite Hfront.
Qed.

(** ** [readFilesFromFolderRecursive] *)

Lemma readFilesFromFolderRecursive_S (fuel' : nat) (rootPath pathToRead : string) :
  readFilesFromFolderRecursive (S fuel') rootPath pathToRead =
  match readdir (rootPath +:+ pathToRead) with
  | Throw e => WalkThrow e
  | Ok paths => foldl (walkEntry (readFilesFromFolderRecursive fuel' rootPath) rootPath pathToRead)
      (WalkDone []) paths
  end.
Proof. reflexivity. Qed.

Lemma walkEntry_stopped (recurse : string -> Walk) (rootPath pathToRead : string)
    (paths : list string) (walked : Walk) :
  (forall filePaths, walked <> WalkDone filePaths) ->
  foldl (walkEntry recurse rootPath pathToRead) walked paths = walked.
Proof.
  intros Hstopped. induction paths as [|path paths IH]; [done|].
  simpl. destruct walked; [by destruct (Hstopped filePaths)|done..].
Qed.

(** X22. A listed file lies below the folder that was read, and is no
    directory. *)
Theorem X22_walk_lists_files_below (rootPath : string) :
  forall (fuel : nat) (pathToRead : string) (filePaths : list string),
  readFilesFromFolderRecursive fuel rootPath pathToRead = WalkDone filePaths ->
  forall filePath, filePath ∈ filePaths ->
    (exists rest, filePath = pathToRead +:+ "/" +:+ rest)
    /\ isDirectory (rootPath +:+ filePath) = Ok false.
Proof.
  induction fuel as [|fuel IH]; intros pathToRead filePaths Hwalk; [done|].
  rewrite readFilesFromFolderRecursive_S in Hwalk.
  destruct (readdir (rootPath +:+ pathToRead)) as [paths|e]; [|done].
  assert (Hloop : forall paths walkedPaths,
    (forall filePath, filePath ∈ walkedPaths ->
       (exists rest, filePath = pathToRead +:+ "/" +:+ rest)
       /\ isDirectory (rootPath +:+ filePath) = Ok false) ->
    foldl (walkEntry (readFilesFromFolderRecursive fuel rootPath) rootPath pathToRead) (WalkDone walkedPaths) paths
      = WalkDone filePaths ->
    forall filePath, filePath ∈ filePaths ->
       (exists rest, filePath = pathToRead +:+ "/" +:+ rest)
       /\ isDirectory (rootPath +:+ filePath) = Ok false).
  { clear paths Hwalk. induction paths as [|path paths IHpaths];
      intros walkedPaths Hwalked Hfold.
    - simpl in Hfold. by injection Hfold as <-.
    - simpl in Hfold.
      destruct (isDirectory (rootPath +:+ pathToRead +:+ "/" +:+ path))
        as [[|]|e] eqn:Hdir.
      + destruct (readFilesFromFolderRecursive fuel rootPath
                    (pathToRead +:+ "/" +:+ path)) as [subfolderPaths| |] eqn:Hsub.
        * refine (IHpaths _ _ Hfold).
          intros filePath [Hin|Hin]%elem_of_app; [by apply Hwalked|].
          destruct (IH _ _ Hsub _ Hin) as [[rest ->] Hfile].
          split; [|done].
          exists (path +:+ "/" +:+ rest).
          by rewrite !string_append_assoc.
        * by rewrite walkEntry_stopped in Hfold.
        * by rewrite walkEntry_stopped in Hfold.
      + refine (IHpaths _ _ Hfold).
        intros filePath [Hin|Hin]%elem_of_app; [by apply Hwalked|].
        apply list_elem_of_singleton in Hin as ->. split; [by eexists|done].
      + by rewrite walkEntry_stopped in Hfold. }
  apply (Hloop paths []); [|done]. intros filePath Hin. by apply elem_of_nil in Hin.
Qed.


(** X24. A folder without subfolders is listed entry by entry, in the order
    of [readdir]. *)
Theorem X24_walk_flat_folder (fuel : nat) (rootPath pathToRead : string)
    (paths : list string) :
  readdir (rootPath +:+ pathToRead) = Ok paths ->
  (forall path, path ∈ paths ->
     isDirectory (rootPath +:+ pathToRead +:+ "/" +:+ path) = Ok false) ->
  readFilesFromFolderRecursive (S fuel) rootPath pathToRead
    = WalkDone ((fun path => pathToRead +:+ "/" +:+ path) <$> paths).
Proof.
  intros Hreaddir Hfiles. rewrite readFilesFromFolderRecursive_S, Hreaddir.
  clear Hreaddir.
  change ((fun path => pathToRead +:+ "/" +:+ path) <$> paths)
    with ([] ++ ((fun path => pathToRead +:+ "/" +:+ path) <$> paths)).
  generalize (@nil string) as walkedPaths.
  induction paths as [|path paths IHpaths]; intros walkedPaths.
  - simpl. by rewrite app_nil_r.
  - simpl. rewrite Hfiles by constructor.
    rewrite IHpaths.
    + by rewrite <- app_assoc.
    + intros other Hin. apply Hfiles. by constructor.
Qed.

(** ** [listProjects] *)

Lemma searchDir_S (levels' : nat) (path : string) (projects : list string) :
  searchDir (S levels') path projects =
  match readdir path with
  | Throw e => Throw e
  | Ok files => foldl (searchEntry (searchDir levels') path) (Ok projects) files
  end.
Proof. reflexivity. Qed.

Lemma searchEntry_throws (recurse : string -> list string -> Result (list string))
    (path : string) (files : list string) (e : Exception) :
  foldl (searchEntry recurse path) (Throw e) files = Throw e.
Proof. induction files as [|file files IH]; [done|]. simpl. apply IH. Qed.

(** A search that returns has added to [projects] the projects that it
    reaches, and nothing else. *)
Lemma searchDir_found :
  forall (levels : nat) (path : string) (projects found : list string),
  searchDir levels path projects = Ok found ->
  forall project,
    project ∈ found <-> project ∈ projects \/ foundBelow levels path project.
Proof.
  induction levels as [|levels IH]; intros path projects found Hsearch project.
  { simpl in Hsearch. injection Hsearch as <-. split; [by left|].
    intros [Hin|Hbelow]; [done|]. inversion Hbelow. }
  rewrite searchDir_S in Hsearch.
  destruct (readdir path) as [files|e] eqn:Hreaddir; [|done].
  assert (Hloop : forall later earlier projects,
    files = earlier ++ later ->
    foldl (searchEntry (searchDir levels) path) (Ok projects) later = Ok found ->
    project ∈ found <->
      project ∈ projects
      \/ exists file, file ∈ later
         /\ isDirectory (path +:+ "/" +:+ file) = Ok true
         /\ String.eqb file "node_modules" = false
         /\ (endsWith file ".inlang" = true /\ project = path +:+ "/" +:+ file
             \/ endsWith file ".inlang" = false
                /\ foundBelow levels (path +:+ "/" +:+ file) project)).
  { clear projects Hsearch.
    induction later as [|file later IHlater]; intros earlier projects Hfiles Hfold.
    - simpl in Hfold. injection Hfold as <-. split; [by left|].
      intros [Hin|(file & Hin & _)]; [done|]. by apply elem_of_nil in Hin.
    - simpl in Hfold.
      destruct (isDirectory (path +:+ "/" +:+ file)) as [[|]|e] eqn:Hdir;
        [| |by rewrite searchEntry_throws in Hfold].
      + destruct (String.eqb file "node_modules") eqn:Hmodules.
        { rewrite (IHlater (earlier ++ [file]) projects) by
            (by rewrite <- ?app_assoc).
          split; (intros [Hin|(other & Hin & Hother)]; [by left|right]).
          - exists other. split; [by constructor|done].
          - exists other. split; [|done].
            apply elem_of_cons in Hin as [->|Hin]; [|done].
            destruct Hother as (_ & Hno & _). congruence. }
        destruct (endsWith file ".inlang") eqn:Hinlang.
        { rewrite (IHlater (earlier ++ [file]) (projects ++ [path +:+ "/" +:+ file]))
            by (by rewrite <- ?app_assoc).
          rewrite elem_of_app, list_elem_of_singleton. split.
          - intros [[Hin| ->]|(other & Hin & Hother)].
            + by left.
            + right. exists file. split; [by constructor|]. by eauto.
            + right. exists other. split; [by constructor|done].
          - intros [Hin|(other & Hin & Hother)]; [by left; left|].
            apply elem_of_cons in Hin as [->|Hin].
            + destruct Hother as (_ & _ & [[_ ->]|[Hno _]]); [by left; right|congruence].
            + right. by exists other. }
        destruct (searchDir levels (path +:+ "/" +:+ file) projects)
          as [deeper|e] eqn:Hdeeper; [|by rewrite searchEntry_throws in Hfold].
        rewrite (IHlater (earlier ++ [file]) deeper) by (by rewrite <- ?app_assoc).
        rewrite (IH _ _ _ Hdeeper). split.
        * intros [[Hin|Hbelow]|(other & Hin & Hother)].
          -- by left.
          -- right. exists file. split; [by constructor|]. by eauto 10.
          -- right. exists other. split; [by constructor|done].
        * intros [Hin|(other & Hin & Hother)]; [by left; left|].
          apply elem_of_cons in Hin as [->|Hin].
          -- destruct Hother as (_ & _ & [[Hyes _]|[_ Hbelow]]); [congruence|].
             by left; right.
          -- right. by exists other.
      + rewrite (IHlater (earlier ++ [file]) projects) by (by rewrite <- ?app_assoc).
        split; (intros [Hin|(other & Hin & Hother)]; [by left|right]).
        * exists other. split; [by constructor|done].
        * exists other. split; [|done].
          apply elem_of_cons in Hin as [->|Hin]; [|done].
          destruct Hother as (Hyes & _). congruence. }
  rewrite (Hloop files [] projects eq_refl Hsearch).
  split; (intros [Hin|Hbelow]; [by left|right]).
  - destruct Hbelow as (file & Hin & Hdir & Hmodules & [[Hinlang ->]|[Hinlang Hbelow]]).
    + by eapply found_here.
    + by eapply found_deeper.
  - inversion Hbelow as [? ? files' file Hreaddir' Hin Hdir Hmodules Hinlang
                        |? ? files' file ? Hreaddir' Hin Hdir Hmodules Hinlang Hdeeper];
      subst; rewrite Hreaddir in Hreaddir'; injection Hreaddir' as <-;
      exists file; eauto 10.
Qed.

(** X25. [listProjects] lists the project directories that lie at most six
    directories below [from] on a way that enters neither a [node_modules]
    directory nor a project, and lists nothing else. *)
Theorem X25_listProjects_lists_what_the_search_reaches (from : string)
    (projects : list string) (projectPath : string) :
  listProjects from = Ok projects ->
  projectPath ∈ projects
  <-> exists filePath,
        foundBelow (S recursionLimit) from filePath
        /\ projectPath = collapseSlashPairs filePath.
Proof.
  unfold listProjects. intros Hlist.
  destruct (searchDir (S recursionLimit) from []) as [found|e] eqn:Hsearch; [|done].
  injection Hlist as <-. rewrite list_elem_of_fmap.
  split; intros (filePath & Hpath & Hfound); exists filePath.
  - apply (searchDir_found _ _ _ _ Hsearch) in Hfound as [Hin|Hbelow]; [|done].
    by apply elem_of_nil in Hin.
  - split; [done|]. apply (searchDir_found _ _ _ _ Hsearch). by right.
Qed.

Lemma foundBelow_ends_in_inlang (levels : nat) (path project : string) :
  foundBelow levels path project -> exists front, project = front +:+ ".inlang".
Proof.
  induction 1 as [levels path files file _ _ _ _ Hinlang|]; [|done].
  apply endsWith_spec in Hinlang as [front ->].
  exists (path +:+ "/" +:+ front). by rewrite !string_append_assoc.
Qed.

(** X26. Every listed project path ends in [.inlang], also after the double
    slashes are replaced. *)
Theorem X26_listProjects_paths_end_in_inlang (from : string) (projects : list string)
    (projectPath : string) :
  listProjects from = Ok projects ->
  projectPath ∈ projects ->
  endsWith projectPath ".inlang" = true.
Proof.
  unfold listProjects. intros Hlist Hin.
  destruct (searchDir (S recursionLimit) from []) as [found|e] eqn:Hsearch; [|done].
  injection Hlist as <-.
  apply list_elem_of_fmap in Hin as (filePath & -> & Hfound).
  apply (searchDir_found _ _ _ _ Hsearch) in Hfound as [Hnil|Hbelow];
    [by apply elem_of_nil in Hnil|].
  apply foundBelow_ends_in_inlang in Hbelow as [front ->].
  apply endsWith_spec.
  by apply (collapseSlashPairs_suffix ".inlang" eq_refl (S (String.length front))); lia.
Qed.

End Walks.

(** * Runs of the further properties *)

(** Settings that fail the schema. *)
Lemma X1_parseSettings_invalid_lists_errors_witness :
  let errors := Demo.Errors (JObject []) in
  parseSettings Demo.migrateIfOutdated Demo.Check Demo.Errors (JObject [])
    = Throw (ProjectSettingsInvalidError errors)
  /\ exists error rest, errors = error :: rest.
Proof.
  split; [reflexivity|].
  apply (X1_parseSettings_invalid_lists_errors Demo.migrateIfOutdated Demo.Check
           Demo.Errors (JObject [])).
  reflexivity.
Defined.

Lemma X2_parseSettings_current_shape_witness :
  parseSettings Demo.migrateIfOutdated Demo.Check Demo.Errors Demo.currentSettings
    = Ok Demo.currentSettings
  <-> Demo.currentSettings = Demo.currentSettings
      /\ Demo.Check Demo.currentSettings = true
      /\ includes (getProperty "languageTags" Demo.currentSettings)
           (getProperty "sourceLanguageTag" Demo.currentSettings) = Ok true.
Proof.
  apply (X2_parseSettings_current_shape Demo.migrateIfOutdated Demo.Check Demo.Errors
           Demo.currentSettings).
  - reflexivity.
  - intros Hcheck. vm_compute in Hcheck. discriminate Hcheck.
Defined.

Lemma X3_setSettings_refusal_changes_nothing_witness :
  (setSettings Demo.migrateIfOutdated Demo.Check Demo.Errors emptySettings (JObject [])).2
  = emptySettings.
Proof.
  apply (X3_setSettings_refusal_changes_nothing Demo.migrateIfOutdated Demo.Check
           Demo.Errors emptySettings (JObject [])).
  vm_compute. intros Hdata. discriminate Hdata.
Defined.

(** Three accepted calls of [setSettings]: the second and the third are
    written. *)
Lemma X4_setSettings_writes_all_but_first_witness :
  let calls := [Demo.currentSettings; Demo.outdatedSettings; Demo.currentSettings] in
  let st := setSettingsAll Demo.migrateIfOutdated Demo.Check Demo.Errors emptySettings calls in
  settingsWrites st = [Demo.migratedSettings; Demo.currentSettings]
  /\ settings st = Some Demo.currentSettings.
Proof.
  apply (X4_setSettings_writes_all_but_first Demo.migrateIfOutdated Demo.Check Demo.Errors
           Demo.currentSettings [Demo.outdatedSettings; Demo.currentSettings]).
  repeat constructor.
Defined.

(** A settings file of the old shape whose migration passes the check. *)
Lemma X5_settingsEffect_migrates_twice_witness :
  let json :=
    JObject [("sourceLanguageTag", JString "en");
             ("languageTags", JArray [JString "en"]);
             ("settings", JObject [("modules", JArray [])])] in
  let migrated :=
    JObject [("$schema", JString "https://inlang.com/schema/project-settings");
             ("sourceLanguageTag", JString "en");
             ("languageTags", JArray [JString "en"]);
             ("modules", JArray [])] in
  let fs : Fs := {[ Demo.projectPath +:+ "/settings.json" := FsFile "old" ]} in
  settingsEffect Demo.migrateIfOutdated Demo.Check Demo.Errors (fun _ => Some json)
    fs Demo.projectPath emptySettings
  = (InitPending, mkSettingsState (Some migrated) true []).
Proof.
  apply (X5_settingsEffect_migrates_twice Demo.migrateIfOutdated Demo.Check Demo.Errors
           (fun _ => Some (JObject [("sourceLanguageTag", JString "en");
                                    ("languageTags", JArray [JString "en"]);
                                    ("settings", JObject [("modules", JArray [])])]))
           {[ Demo.projectPath +:+ "/settings.json" := FsFile "old" ]}
           Demo.projectPath "old"
           (JObject [("sourceLanguageTag", JString "en");
                     ("languageTags", JArray [JString "en"]);
                     ("settings", JObject [("modules", JArray [])])])
           (JObject [("$schema", JString "https://inlang.com/schema/project-settings");
                     ("sourceLanguageTag", JString "en");
                     ("languageTags", JArray [JString "en"]);
                     ("modules", JArray [])])
           (JObject [("$schema", JString "https://inlang.com/schema/project-settings");
                     ("sourceLanguageTag", JString "en");
                     ("languageTags", JArray [JString "en"]);
                     ("modules", JArray [])]));
    by vm_compute.
Defined.

(** The file of [hello] changes; [bye] stays as it is. *)
Lemma X7_watch_turn_leaves_other_messages_witness :
  let fs : Fs := {[ Demo.helloFile := FsFile (Demo.encodeMessage Demo.hello) ]} in
  let store : Store := {[ "hello" := Demo.helloBefore; "bye" := Demo.bye ]} in
  (demoWatch fs Demo.projectPath (Some "hello.json") store).2 !! "bye" = store !! "bye".
Proof.
  apply (X7_watch_turn_leaves_other_messages Demo.parseMessage Demo.encodeMessage None
           Demo.getMessageIdFromPath
           {[ Demo.helloFile := FsFile (Demo.encodeMessage Demo.hello) ]}
           Demo.projectPath (Some "hello.json")
           {[ "hello" := Demo.helloBefore; "bye" := Demo.bye ]} "bye").
  intros name [= <-]. vm_compute. intros Hid. discriminate Hid.
Defined.

(** The file of [hello] holds what the store holds. *)
Lemma X8_watch_turn_without_mutation_witness :
  let fs : Fs := {[ Demo.helloFile := FsFile (Demo.encodeMessage Demo.hello) ]} in
  let store : Store := {[ "hello" := Demo.hello ]} in
  (demoWatch fs Demo.projectPath (Some "hello.json") store).2 = store.
Proof.
  apply (X8_watch_turn_without_mutation Demo.parseMessage Demo.encodeMessage None
           Demo.getMessageIdFromPath
           {[ Demo.helloFile := FsFile (Demo.encodeMessage Demo.hello) ]}
           Demo.projectPath (Some "hello.json") {[ "hello" := Demo.hello ]}).
  by vm_compute.
Defined.

(** The file of [hello] appears, with a codec that encodes [undefined]. *)
Lemma X10_watch_new_file_witness :
  let fs : Fs := {[ Demo.helloFile := FsFile (Demo.encodeMessage Demo.hello) ]} in
  let turn :=
    handleWatchEvent Demo.parseMessage Demo.encodeMessage (Some "absent")
      Demo.getMessageIdFromPath fs Demo.projectPath (Some "hello.json") ∅ in
  turn = (WatchUpserted, <["hello" := Demo.hello]> ∅)
  /\ (is_Some (Some "absent") -> messagesQuery.get "hello" turn.2 = Some Demo.hello).
Proof.
  apply (X10_watch_new_file Demo.parseMessage Demo.encodeMessage (Some "absent")
           Demo.getMessageIdFromPath
           {[ Demo.helloFile := FsFile (Demo.encodeMessage Demo.hello) ]}
           Demo.projectPath "hello.json" "hello" (Demo.encodeMessage Demo.hello)
           Demo.hello ∅);
    by vm_compute.
Defined.

(** The message [hello] has left the store; its file is on the disk. *)
Lemma X12_tracking_removes_only_left_messages_witness :
  let st := mkSyncState ["hello"] {[ Demo.helloFile := FsFile "x" ]} [] in
  let after := trackMessagesEffect Demo.getPathFromMessageId Demo.projectPath ∅ st in
  disk after !! Demo.helloFile = None
  /\ exists messageId,
       messageId ∈ trackedMessages st
       /\ messagesQuery.get messageId ∅ = None
       /\ Demo.helloFile
          = messageFolderPath Demo.projectPath +:+ "/" +:+ Demo.getPathFromMessageId messageId.
Proof.
  apply (X12_tracking_removes_only_left_messages Demo.getPathFromMessageId Demo.projectPath
           ∅ (mkSyncState ["hello"] {[ Demo.helloFile := FsFile "x" ]} []) Demo.helloFile).
  vm_compute. intros Hsame. discriminate Hsame.
Defined.

(** Two candidates are taken; the third is free. *)
Lemma X14_probe_returns_first_free_candidate_witness :
  let fs : Fs := {[ "id_hello_0.json" := FsFile ""; "id_hello_1.json" := FsFile "" ]} in
  probeMessageId Demo.getPathFromMessageId Demo.humanIdHash 3 fs "hello" 0
  = ProbeFound "id_hello_2".
Proof.
  apply (X14_probe_returns_first_free_candidate Demo.getPathFromMessageId Demo.humanIdHash
           {[ "id_hello_0.json" := FsFile ""; "id_hello_1.json" := FsFile "" ]}
           "hello" 2 3 0).
  - intros [|[|earlier]] Hearlier; [by vm_compute..|lia].
  - by vm_compute.
  - lia.
Defined.

(** A hash that gives the same id at every offset, and the file of that id
    on the disk. *)
Lemma X15_probe_runs_on_while_candidates_exist_witness :
  probeMessageId Demo.getPathFromMessageId (fun value _ => value) 3
    {[ "hello.json" := FsFile "" ]} "hello" 0
  = ProbeRunsOn.
Proof.
  apply (X15_probe_runs_on_while_candidates_exist Demo.getPathFromMessageId
           (fun value _ => value) {[ "hello.json" := FsFile "" ]} "hello").
  intros offset. reflexivity.
Defined.

Lemma X16_probe_found_is_first_free_witness :
  let fs : Fs := {[ "id_hello_0.json" := FsFile ""; "id_hello_1.json" := FsFile "" ]} in
  exists offset,
    "id_hello_2" = Demo.humanIdHash "hello" offset
    /\ 0 <= offset < 0 + 3
    /\ stat fs (Demo.getPathFromMessageId "id_hello_2") = Throw (FsError ENOENT)
    /\ forall earlier, 0 <= earlier < offset ->
         stat fs (Demo.getPathFromMessageId (Demo.humanIdHash "hello" earlier)) = Ok tt.
Proof.
  apply (X16_probe_found_is_first_free Demo.getPathFromMessageId Demo.humanIdHash 3
           {[ "id_hello_0.json" := FsFile ""; "id_hello_1.json" := FsFile "" ]}
           "hello" 0 "id_hello_2").
  by vm_compute.
Defined.

(** The import of [bye] next to the stored greeting. *)
Lemma X17_import_keeps_other_messages_witness :
  let store : Store := {[ "calm_owl" := Demo.storedGreeting ]} in
  let run := demoImport 1 ∅ Demo.pluginId [Demo.bye] store in
  storeKeyedById (importStore run)
  /\ is_Some (importStore run !! "calm_owl")
  /\ ((forall m, m ∈ [Demo.bye] -> alias Demo.storedGreeting !! Demo.pluginId <> Some (id m))
      -> importStore run !! "calm_owl" = Some Demo.storedGreeting).
Proof.
  apply (X17_import_keeps_other_messages Demo.encodeMessage Demo.getPathFromMessageId
           Demo.localeCompare Demo.humanIdHash 1 ∅ Demo.pluginId [Demo.bye]
           {[ "calm_owl" := Demo.storedGreeting ]} "calm_owl" Demo.storedGreeting).
  - apply map_Forall_singleton. reflexivity.
  - by vm_compute.
Defined.

(** The import of [bye] into an empty store. *)
Lemma X19_import_creates_new_message_witness :
  let created :=
    mkMessage "id_bye_0"
      {[ Demo.pluginId := id Demo.bye; "library.inlang.paraglideJs" := id Demo.bye ]}
      (variants Demo.bye) in
  importMessage Demo.encodeMessage Demo.getPathFromMessageId Demo.humanIdHash
    1 ∅ Demo.pluginId Demo.bye ∅
  = StepDone true (<["id_bye_0" := created]> ∅)
  /\ currentMessagesFor Demo.pluginId (id Demo.bye) (<["id_bye_0" := created]> ∅)
     = [created].
Proof.
  apply (X19_import_creates_new_message Demo.encodeMessage Demo.getPathFromMessageId
           Demo.humanIdHash 1 ∅ Demo.pluginId Demo.bye ∅ "id_bye_0");
    by vm_compute.
Defined.


(** The message folder of the demo project: a file, and a file in a
    subfolder. *)
Lemma X22_walk_lists_files_below_witness :
  readFilesFromFolderRecursive DemoFolders.readdir DemoFolders.isDirectory 3
    DemoFolders.messageFolder "" = WalkDone ["/a.json"; "/sub/b.json"]
  /\ (exists rest, "/sub/b.json" = "" +:+ "/" +:+ rest)
  /\ DemoFolders.isDirectory (DemoFolders.messageFolder +:+ "/sub/b.json") = Ok false.
Proof.
  split; [by vm_compute|].
  apply (X22_walk_lists_files_below DemoFolders.readdir DemoFolders.isDirectory
           DemoFolders.messageFolder 3 "" ["/a.json"; "/sub/b.json"]).
  - by vm_compute.
  - repeat constructor.
Defined.

Lemma X24_walk_flat_folder_witness :
  readFilesFromFolderRecursive DemoFolders.readdir DemoFolders.isDirectory 1
    DemoFolders.messageFolder "/sub"
  = WalkDone ((fun path => "/sub" +:+ "/" +:+ path) <$> ["b.json"]).
Proof.
  apply (X24_walk_flat_folder DemoFolders.readdir DemoFolders.isDirectory 0
           DemoFolders.messageFolder "/sub" ["b.json"]).
  - by vm_compute.
  - intros path ->%list_elem_of_singleton. by vm_compute.
Defined.

(** The search from the root of the disk: the project in [node_modules] is
    not listed, and the listed paths have one slash in front. *)
Lemma X25_listProjects_lists_what_the_search_reaches_witness :
  listProjects DemoFolders.readdir DemoFolders.isDirectory "/"
    = Ok ["/app.inlang"; "/packages/web.inlang"]
  /\ ("/packages/web.inlang" ∈ ["/app.inlang"; "/packages/web.inlang"]
      <-> exists filePath,
            foundBelow DemoFolders.readdir DemoFolders.isDirectory (S recursionLimit)
              "/" filePath
            /\ "/packages/web.inlang" = collapseSlashPairs filePath).
Proof.
  split; [by vm_compute|].
  apply (X25_listProjects_lists_what_the_search_reaches DemoFolders.readdir
           DemoFolders.isDirectory "/" ["/app.inlang"; "/packages/web.inlang"]
           "/packages/web.inlang").
  by vm_compute.
Defined.

Lemma X26_listProjects_paths_end_in_inlang_witness :
  endsWith "/packages/web.inlang" ".inlang" = true.
Proof.
  apply (X26_listProjects_paths_end_in_inlang DemoFolders.readdir DemoFolders.isDirectory
           "/" ["/app.inlang"; "/packages/web.inlang"] "/packages/web.inlang").
  - by vm_compute.
  - repeat constructor.
Defined.
